(** * SubprocessLanguage: a persistent interpreter session driven over pipes

    A shallow embedding of
    [interpreter/core/computer/terminal/languages/subprocess_language.py].

    Text is modelled by Rocq strings, i.e. sequences of 8-bit characters
    (code points below 256); on that range the regular-expression class
    [\d] is exactly [0-9] and [str.strip] removes the characters listed in
    [isspace] below.  Python values that are tested for truthiness or
    stored in an event are kept in the small universe [value]. *)

From Stdlib Require Import String Ascii List ZArith Lia Bool Arith DecimalString.
From Stdlib Require Import Permutation.
Import ListNotations.
Open Scope string_scope.

(** ** Python strings *)

Module PyStr.

(** [s[n:]] *)
Fixpoint drop (n : nat) (s : string) : string :=
  match n, s with
  | O, _ => s
  | S k, String _ s' => drop k s'
  | S _, EmptyString => EmptyString
  end.

(** [s.startswith(p)] *)
Fixpoint startswith (p s : string) : bool :=
  match p with
  | EmptyString => true
  | String a p' =>
      match s with
      | EmptyString => false
      | String b s' => (a =? b)%char && startswith p' s'
      end
  end.

(** [sub in s] *)
Fixpoint contains (sub s : string) : bool :=
  startswith sub s ||
  match s with
  | EmptyString => false
  | String _ s' => contains sub s'
  end.

(** [s.replace(old, new)] for a non-empty [old]: the occurrences of [old]
    are found from left to right and do not overlap.  [skip] counts the
    characters of the current occurrence that are still to be passed. *)
Fixpoint replace_from (old new : string) (skip : nat) (s : string) : string :=
  match s with
  | EmptyString => EmptyString
  | String c s' =>
      match skip with
      | S k => replace_from old new k s'
      | O =>
          if startswith old s
          then new ++ replace_from old new (String.length old - 1) s'
          else String c (replace_from old new 0 s')
      end
  end.

Definition replace (s old new : string) : string :=
  replace_from old new 0 s.

(** [c.isspace()] on code points below 256 *)
Definition isspace (c : ascii) : bool :=
  let n := nat_of_ascii c in
  (((9 <=? n) && (n <=? 13)) || ((28 <=? n) && (n <=? 32))
   || (n =? 133) || (n =? 160))%nat.

Fixpoint lstrip (s : string) : string :=
  match s with
  | EmptyString => EmptyString
  | String c s' => if isspace c then lstrip s' else s
  end.

Fixpoint rstrip (s : string) : string :=
  match s with
  | EmptyString => EmptyString
  | String c s' =>
      match rstrip s' with
      | EmptyString => if isspace c then EmptyString else String c EmptyString
      | r => String c r
      end
  end.

(** [s.strip()] *)
Definition strip (s : string) : string := rstrip (lstrip s).

(** [\d] *)
Definition isdigit (c : ascii) : bool :=
  let n := nat_of_ascii c in ((48 <=? n) && (n <=? 57))%nat.

(** number of leading characters of [s] matched by [\d*] *)
Fixpoint digits (s : string) : nat :=
  match s with
  | String c s' => if isdigit c then S (digits s') else 0
  | EmptyString => 0
  end.

(** [re.match(r"##active_line\d+##", s)]: the length of the match at the
    start of [s].  A digit is never a [#], so the greedy [\d+] takes the
    whole run of digits and no backtracking can succeed where this
    fails. *)
Definition match_active_line (s : string) : option nat :=
  if startswith "##active_line" s then
    let r := drop 13 s in
    let d := digits r in
    if (1 <=? d)%nat && startswith "##" (drop d r) then Some (13 + d + 2) else None
  else None.

Fixpoint sub_active_line_from (skip : nat) (s : string) : string :=
  match s with
  | EmptyString => EmptyString
  | String c s' =>
      match skip with
      | S k => sub_active_line_from k s'
      | O =>
          match match_active_line s with
          | Some n => sub_active_line_from (n - 1) s'
          | None => String c (sub_active_line_from 0 s')
          end
      end
  end.

(** [re.sub(r"##active_line\d+##", '', s)] *)
Definition sub_active_line (s : string) : string :=
  sub_active_line_from 0 s.

End PyStr.

(** ** Python values and output events *)

Inductive value : Type :=
| VNone
| VBool (b : bool)
| VInt (z : Z)
| VStr (s : string).

(** the truth value Python gives to [if v:] *)
Definition truthy (v : value) : bool :=
  match v with
  | VNone => false
  | VBool b => b
  | VInt z => negb (z =? 0)%Z
  | VStr s => negb (s =? EmptyString)
  end.

(** [{"type": ..., "format": ..., "content": ...}] *)
Record event : Type := Event {
  ev_type : string;
  ev_format : string;
  ev_content : value
}.

Definition output_event (text : string) : event :=
  Event "console" "output" (VStr text).

Definition active_line_event (v : value) : event :=
  Event "console" "active_line" v.

(** [try: ... except: traceback.format_exc()]: a computation either
    returns or raises, and an exception is known by its traceback text. *)
Inductive result (A : Type) : Type :=
| Ok (a : A)
| Raise (tb : string).
Arguments Ok {A} a.
Arguments Raise {A} tb.

(** ** The overridable methods of a language *)

Class Language : Type := {
  name : value;                               (* getattr(self, "name", None) *)
  start_cmd : list string;
  detect_active_line : string -> value;
  detect_end_of_execution : string -> value;
  line_postprocessor : string -> option string;   (* None: discard *)
  preprocess_code : string -> result string
}.

(** The methods as [SubprocessLanguage] itself defines them. *)
Definition SubprocessLanguage : Language := {|
  name := VNone;
  start_cmd := [];
  detect_active_line := fun _ => VNone;
  detect_end_of_execution := fun _ => VNone;
  line_postprocessor := fun line => Some line;
  preprocess_code := fun code => Ok code
|}.

(** ** The stream demultiplexer *)

(** What a reader thread does to the shared state. *)
Inductive action : Type :=
| Put (e : event)          (* self.output_queue.put(e) *)
| SetDone.                 (* self.done.set() *)

Section Demultiplexer.
Context {L : Language}.

(** The body of the [for line in iter(stream.readline, '')] loop. *)
Definition handle_line (is_error_stream : bool) (line : string) : list action :=
  match line_postprocessor line with
  | None => []
  | Some line =>
      if truthy (detect_active_line line) then
        let active_line := detect_active_line line in
        Put (active_line_event active_line) ::
        (let line := PyStr.sub_active_line line in
         if truthy (VStr line) then [Put (output_event line)] else [])
      else if truthy (detect_end_of_execution line) then
        let line :=
          PyStr.strip (PyStr.replace line "##end_of_execution##" EmptyString) in
        ((if truthy (VStr line) then [Put (output_event line)] else [])
         ++ [SetDone])%list
      else if is_error_stream && PyStr.contains "KeyboardInterrupt" line then
        [Put (output_event "KeyboardInterrupt"); SetDone]
      else
        [Put (output_event line)]
  end.

(** [handle_stream_output(stream, is_error_stream)] on a stream that
    delivers the lines [lines] before its end (or before it is closed). *)
Definition handle_stream_output (lines : list string) (is_error_stream : bool)
  : list action :=
  flat_map (handle_line is_error_stream) lines.

End Demultiplexer.

(** Modelled from the spec: the subclasses that override the methods are
    not part of this source file.  [Markers.lang] is a sample language with
    the marker conventions of the wire protocol, [##active_line<digits>##]
    and [##end_of_execution##]: a line is an active-line marker when it
    holds [##active_line], the payload being the number that follows, and
    it ends the execution when it holds [##end_of_execution##]. *)
Module Markers.

Fixpoint int_of_digits (acc : Z) (s : string) : Z :=
  match s with
  | String c s' =>
      if PyStr.isdigit c
      then int_of_digits (10 * acc + Z.of_nat (nat_of_ascii c - 48)) s'
      else acc
  | EmptyString => acc
  end.

(** index just after the first occurrence of [sub] in [s] *)
Fixpoint after (sub s : string) : option string :=
  if PyStr.startswith sub s then Some (PyStr.drop (String.length sub) s)
  else match s with
       | EmptyString => None
       | String _ s' => after sub s'
       end.

Definition active_line_of (line : string) : value :=
  match after "##active_line" line with
  | Some r => VInt (int_of_digits 0 r)
  | None => VNone
  end.

Definition lang (nm : value) : Language := {|
  name := nm;
  start_cmd := ["sh"];
  detect_active_line := active_line_of;
  detect_end_of_execution :=
    fun line => VBool (PyStr.contains "##end_of_execution##" line);
  line_postprocessor := fun line => Some line;
  preprocess_code :=
    fun code => Ok (code ++ String (ascii_of_nat 10) "echo ##end_of_execution##")
|}.

Definition Shell : Language := lang (VStr "Shell").

End Markers.

(** ** Dictionaries

    [os.environ.copy()] and [self.env_vars] are dictionaries from strings to
    strings.  A dictionary keeps its items in insertion order, which is the
    order [items()] yields them in; it is a list of pairs in which every key
    occurs once ([wf]). *)

Module PyDict.

Definition dict : Type := list (string * string).

Definition items (d : dict) : list (string * string) := d.
Definition keys (d : dict) : list string := map fst d.

Definition wf (d : dict) : Prop := NoDup (keys d).

(** [d.get(k)] *)
Fixpoint get (d : dict) (k : string) : option string :=
  match d with
  | [] => None
  | (k', v) :: d' => if k' =? k then Some v else get d' k
  end.

(** [k in d] *)
Definition mem (k : string) (d : dict) : bool :=
  match get d k with Some _ => true | None => false end.

(** [d[k] = v]: the value is replaced in place, a new key goes last *)
Fixpoint set (d : dict) (k v : string) : dict :=
  match d with
  | [] => [(k, v)]
  | (k', v') :: d' => if k' =? k then (k, v) :: d' else (k', v') :: set d' k v
  end.

(** [d1 == d2]: as many items, and every item of [d1] is one of [d2] *)
Definition eqb (d1 d2 : dict) : bool :=
  (length d1 =? length d2)%nat &&
  forallb (fun kv => match get d2 (fst kv) with
                     | Some v => snd kv =? v
                     | None => false
                     end) (items d1).

(** [d.copy()] *)
Definition copy (d : dict) : dict := d.

End PyDict.

Definition dict : Type := PyDict.dict.

Definition nl : string := String (ascii_of_nat 10) EmptyString.

(** [str(n)] *)
Definition str_of_nat (n : nat) : string :=
  NilEmpty.string_of_uint (Nat.to_uint n).

(** ** The child process

    [child] is what lies outside the program: how the operating system and
    the launched command answer each call made on the [Popen] object. *)

Record child : Type := Child {
  terminate_error : option string;           (* Popen.terminate() raises *)
  stdin_close_error : option string;         (* stdin.close() raises *)
  stdout_close_error : option string;        (* stdout.close() raises *)
  (* the [k]-th write-and-flush of [data] on stdin raises *)
  write_error : nat -> string -> option string;
  (* the lines the command prints after reading [data] *)
  stdout_lines : string -> list string;
  stderr_lines : string -> list string
}.

(** The [Popen] object: the arguments it was created with and what has been
    done to it. *)
Record Popen : Type := MkPopen {
  args : list string;
  env : dict;
  os_child : child;
  stdin_written : list string;       (* texts written and flushed, oldest first *)
  write_calls : nat;
  terminated : bool;
  stdin_closed : bool;
  stdout_closed : bool
}.

Definition new_process (cmd : list string) (e : dict) (c : child) : Popen :=
  MkPopen cmd e c [] 0 false false false.

Definition proc_terminate (p : Popen)
  : result unit * Popen :=
  match terminate_error (os_child p) with
  | Some tb => (Raise tb, p)
  | None =>
      (Ok tt, MkPopen (args p) (env p) (os_child p) (stdin_written p)
                      (write_calls p) true (stdin_closed p) (stdout_closed p))
  end.

Definition proc_stdin_close (p : Popen)
  : result unit * Popen :=
  match stdin_close_error (os_child p) with
  | Some tb => (Raise tb, p)
  | None =>
      (Ok tt, MkPopen (args p) (env p) (os_child p) (stdin_written p)
                      (write_calls p) (terminated p) true (stdout_closed p))
  end.

Definition proc_stdout_close (p : Popen)
  : result unit * Popen :=
  match stdout_close_error (os_child p) with
  | Some tb => (Raise tb, p)
  | None =>
      (Ok tt, MkPopen (args p) (env p) (os_child p) (stdin_written p)
                      (write_calls p) (terminated p) (stdin_closed p) true)
  end.

(** [stdin.write(data); stdin.flush()] taken as one step: both calls stand
    in the same [try] wherever the program makes them. *)
Definition proc_stdin_write (data : string) (p : Popen)
  : result unit * Popen :=
  if stdin_closed p then
    (Raise "ValueError: I/O operation on closed file.", p)
  else
    match write_error (os_child p) (write_calls p) data with
    | Some tb =>
        (Raise tb, MkPopen (args p) (env p) (os_child p) (stdin_written p)
                           (S (write_calls p)) (terminated p) (stdin_closed p)
                           (stdout_closed p))
    | None =>
        (Ok tt, MkPopen (args p) (env p) (os_child p)
                        (stdin_written p ++ [data])%list
                        (S (write_calls p)) (terminated p) (stdin_closed p)
                        (stdout_closed p))
    end.

(** ** The session object

    [self.start_cmd] is with the methods of the language; [self.verbose]
    only switches diagnostic printing and is left out.  The two reader
    threads are part of the state: what each of them is going to do, in
    order, with the lines its stream delivers. *)

Record session : Type := Session {
  process : option Popen;          (* self.process *)
  env_vars : dict;                   (* self.env_vars *)
  output_queue : list event;         (* self.output_queue, oldest first *)
  done : bool;                       (* self.done *)
  (* what the two reader threads have still to do *)
  stdout_reader : list action;
  stderr_reader : list action;
  (* number of [subprocess.Popen] calls made so far *)
  popen_calls : nat
}.

(** [SubprocessLanguage.__init__] *)
Definition init : session := Session None [] [] false [] [] 0.

Definition with_process (p : option Popen) (s : session) : session :=
  Session p (env_vars s) (output_queue s) (done s)
          (stdout_reader s) (stderr_reader s) (popen_calls s).

Definition with_env_vars (e : dict) (s : session) : session :=
  Session (process s) e (output_queue s) (done s)
          (stdout_reader s) (stderr_reader s) (popen_calls s).

Definition with_output_queue (q : list event) (s : session) : session :=
  Session (process s) (env_vars s) q (done s)
          (stdout_reader s) (stderr_reader s) (popen_calls s).

Definition with_done (b : bool) (s : session) : session :=
  Session (process s) (env_vars s) (output_queue s) b
          (stdout_reader s) (stderr_reader s) (popen_calls s).

Definition with_stdout_reader (r : list action) (s : session) : session :=
  Session (process s) (env_vars s) (output_queue s) (done s)
          r (stderr_reader s) (popen_calls s).

Definition with_stderr_reader (r : list action) (s : session) : session :=
  Session (process s) (env_vars s) (output_queue s) (done s)
          (stdout_reader s) r (popen_calls s).

Definition with_popen_calls (n : nat) (s : session) : session :=
  Session (process s) (env_vars s) (output_queue s) (done s)
          (stdout_reader s) (stderr_reader s) n.

(** What lies outside the session during one call. *)
Record world : Type := World {
  os_environ : dict;
  (* the [n]-th call of [subprocess.Popen(cmd, env=e, ...)] *)
  popen : nat -> list string -> dict -> result child;
  (* the steps the reader threads take before the driver looks at the queue
     or at the done-signal for the [t]-th time: [false] is a step of the
     stdout reader, [true] one of the stderr reader *)
  schedule : nat -> list bool
}.

(** ** Methods: state and exceptions *)

Definition M (A : Type) : Type := session -> result A * session.

Definition ret {A} (a : A) : M A := fun s => (Ok a, s).

Definition bind {A B} (m : M A) (k : A -> M B) : M B :=
  fun s => match m s with
           | (Ok a, s') => k a s'
           | (Raise tb, s') => (Raise tb, s')
           end.

Definition raise {A} (tb : string) : M A := fun s => (Raise tb, s).

Definition lift {A} (r : result A) : M A := fun s => (r, s).

Declare Scope py_scope.
Delimit Scope py_scope with py.
Notation "x <- m ;; k" := (bind m (fun x => k))
  (at level 61, m at next level, right associativity) : py_scope.
Notation "m ;; k" := (bind m (fun _ => k))
  (at level 61, right associativity) : py_scope.
Open Scope py_scope.

(** a method call on [self.process] *)
Definition on_process (f : Popen -> result unit * Popen) : M unit :=
  fun s =>
    match process s with
    | None => (Raise "AttributeError: 'NoneType' object has no attribute", s)
    | Some p => let '(r, p') := f p in (r, with_process (Some p') s)
    end.

Section Methods.
Context (w : world) {L : Language}.

Definition terminate : M unit :=
  fun s =>
    match process s with
    | Some _ =>
        (on_process proc_terminate ;;
         on_process proc_stdin_close ;;
         on_process proc_stdout_close ;;
         (* the reader of the closed stdout ends: lines 197-200 *)
         (fun s => (Ok tt, with_stdout_reader [] s))) s
    | None => (Ok tt, s)
    end.

(** [subprocess.Popen(self.start_cmd, ..., env=my_env, ...)] and the two
    reader threads, which have nothing to read yet *)
Definition spawn (my_env : dict) : M unit :=
  fun s =>
    let s' := with_popen_calls (S (popen_calls s)) s in
    match popen w (popen_calls s) start_cmd my_env with
    | Raise tb => (Raise tb, s')
    | Ok c => (Ok tt, with_process (Some (new_process start_cmd my_env c)) s')
    end.

Definition start_process : M unit :=
  (fun s => match process s with
            | Some _ => terminate s
            | None => (Ok tt, s)
            end) ;;
  let my_env := PyDict.copy (os_environ w) in
  let my_env := PyDict.set my_env "PYTHONIOENCODING" "utf-8" in
  (fun s => (Ok tt, with_env_vars my_env s)) ;;
  spawn my_env.

(** [self.process.stdin.write(data); self.process.stdin.flush()]; the
    lines the child prints in answer are work for the two readers. *)
Definition stdin_write (data : string) : M unit :=
  on_process (proc_stdin_write data) ;;
  (fun s =>
     match process s with
     | Some p =>
         (Ok tt,
          with_stdout_reader
            (stdout_reader s
             ++ handle_stream_output (stdout_lines (os_child p) data) false)%list
            (with_stderr_reader
               (stderr_reader s
                ++ handle_stream_output (stderr_lines (os_child p) data) true)%list
               s))
     | None => (Ok tt, s)
     end).

(** ["export {key}='{value}'\n".format(key=key, value=value)] *)
Definition export_format (key val : string) : string :=
  "export " ++ key ++ "='" ++ val ++ "'" ++ nl.

(** the [for key, value in current_env.items()] loop *)
Definition env_code (code_format : string -> string -> string)
           (snapshot current_env : dict) : string :=
  fold_left
    (fun code kv =>
       let '(key, val) := kv in
       if negb (PyDict.mem key snapshot)
          || negb (match PyDict.get snapshot key with
                   | Some v => v =? val
                   | None => false
                   end)
       then code ++ code_format key val
       else code)
    (PyDict.items current_env) EmptyString.

Definition value_eqb (a b : value) : bool :=
  match a, b with
  | VNone, VNone => true
  | VBool x, VBool y => Bool.eqb x y
  | VInt x, VInt y => (x =? y)%Z
  | VStr x, VStr y => x =? y
  | _, _ => false
  end.

Definition update_subprocess_env (current_env : dict) : M unit :=
  let language := name in
  if value_eqb language (VStr "Shell") then
    let code_format := export_format in
    (fun s =>
       let code := env_code code_format (env_vars s) current_env in
       (stdin_write (code ++ nl) ;;
        (fun s => (Ok tt, with_env_vars current_env s))) s)
  else
    ret tt.

End Methods.

(** ** The reader threads as seen by the driver *)

Definition apply_action (a : action) (s : session) : session :=
  match a with
  | Put e => with_output_queue (output_queue s ++ [e])%list s
  | SetDone => with_done true s
  end.

(** One step of a reader thread; a reader with nothing left stays put. *)
Definition reader_step (s : session) (is_error_stream : bool) : session :=
  if is_error_stream then
    match stderr_reader s with
    | [] => s
    | a :: r => apply_action a (with_stderr_reader r s)
    end
  else
    match stdout_reader s with
    | [] => s
    | a :: r => apply_action a (with_stdout_reader r s)
    end.

Definition readers_run (steps : list bool) (s : session) : session :=
  fold_left reader_step steps s.

(** [self.output_queue.get()] when the queue is not empty, and the
    [queue.Empty] of [get(timeout=...)] when it stays empty *)
Definition queue_get (s : session) : option event * session :=
  match output_queue s with
  | e :: q => (Some e, with_output_queue q s)
  | [] => (None, s)
  end.

Definition yielded (o : option event) : list event :=
  match o with Some e => [e] | None => [] end.

(** ** The execution driver *)

Definition max_retries : nat := 3.

Definition retry_event (tb : string) (retry_count : nat) : event :=
  output_event
    (tb ++ nl ++ "Retrying... (" ++ str_of_nat retry_count ++ "/"
        ++ str_of_nat max_retries ++ ")" ++ nl ++ "Restarting process.").

Definition max_retries_event : event :=
  output_event "Maximum retries reached. Could not execute code.".

(** How a generator call ends. *)
Inductive outcome : Type :=
| Returned
| Raised (tb : string).

(** How the write loop is left. *)
Inductive loop_exit : Type :=
| Break                 (* on to the drain loop *)
| Return                (* [return] inside the loop *)
| Uncaught (tb : string).

Section Driver.
Context (w : world) {L : Language}.

(** the driver's [t]-th look at the shared state: the readers have taken
    the steps [schedule w t] since the look before *)
Definition observe (t : nat) (s : session) : session :=
  readers_run (schedule w t) s.

(** Lines 81-89, inside the [try]. *)
Definition run_setup (code : string) : M string :=
  code <- lift (preprocess_code code) ;;
  is_new <- (fun s => match process s with
                      | None => (start_process w ;; ret true) s
                      | Some _ => (Ok false, s)
                      end) ;;
  let current_env := PyDict.copy (os_environ w) in
  (fun s =>
     if negb is_new && negb (PyDict.eqb (env_vars s) current_env)
     then update_subprocess_env current_env s
     else (Ok tt, s)) ;;
  ret code.

(** Lines 99-129: [while retry_count <= max_retries]. *)
Fixpoint write_loop (fuel : nat) (code : string) (retry_count : nat)
         (s : session) : option (list event * loop_exit * session) :=
  match fuel with
  | O => None
  | S fuel' =>
      if (retry_count <=? max_retries)%nat then
        let s := with_done false s in
        match stdin_write (code ++ nl) s with
        | (Ok _, s) => Some ([], Break, s)
        | (Raise tb, s) =>
            let ys := if negb (retry_count =? 0)%nat
                      then [retry_event tb retry_count] else [] in
            match start_process w s with
            | (Raise tb', s) => Some (ys, Uncaught tb', s)
            | (Ok _, s) =>
                let retry_count := retry_count + 1 in
                if (max_retries <? retry_count)%nat then
                  Some ((ys ++ [max_retries_event])%list, Return, s)
                else
                  match write_loop fuel' code retry_count s with
                  | Some (zs, e, s) => Some ((ys ++ zs)%list, e, s)
                  | None => None
                  end
            end
        end
      else Some ([], Break, s)
  end.

(** Lines 143-146: [for _ in range(3)]. *)
Fixpoint grace (n : nat) (t : nat) (s : session) : list event * session :=
  match n with
  | O => ([], s)
  | S n' =>
      let '(o, s) := queue_get (observe t s) in
      let '(ys, s) := grace n' (S t) s in
      ((yielded o ++ ys)%list, s)
  end.

(** Lines 131-147: [while True].  [t] numbers the driver's looks at the
    shared state. *)
Fixpoint drain (fuel : nat) (t : nat) (s : session)
  : option (list event * session) :=
  match fuel with
  | O => None
  | S fuel' =>
      (* if not self.output_queue.empty(): yield self.output_queue.get() *)
      let '(o1, s) := queue_get (observe t s) in
      (* output = self.output_queue.get(timeout=0.3) *)
      match queue_get (observe (t + 1) s) with
      | (Some output, s) =>
          match drain fuel' (t + 2) s with
          | Some (ys, s) => Some ((yielded o1 ++ output :: ys)%list, s)
          | None => None
          end
      | (None, s) =>
          (* except queue.Empty: if self.done.is_set() *)
          let s := observe (t + 2) s in
          if done s then
            let '(ys, s) := grace 3 (t + 3) s in
            Some ((yielded o1 ++ ys)%list, s)
          else
            match drain fuel' (t + 3) s with
            | Some (ys, s) => Some ((yielded o1 ++ ys)%list, s)
            | None => None
            end
      end
  end.

(** [run(code)]: the events the generator yields, how it ends, and the
    session it leaves; [None] when [fuel] iterations do not finish it. *)
Definition run (fuel : nat) (code : string) (s : session)
  : option (list event * outcome * session) :=
  match run_setup code s with
  | (Raise tb, s) => Some ([output_event tb], Returned, s)
  | (Ok code, s) =>
      match write_loop fuel code 0 s with
      | None => None
      | Some (ys, Uncaught tb, s) => Some (ys, Raised tb, s)
      | Some (ys, Return, s) => Some (ys, Returned, s)
      | Some (ys, Break, s) =>
          match drain fuel 0 s with
          | Some (zs, s) => Some ((ys ++ zs)%list, Returned, s)
          | None => None
          end
      end
  end.

End Driver.

(** ** Vocabulary of the statements *)

Definition end_token : string := "##end_of_execution##".

(** no [#] occurs in the text *)
Fixpoint hash_free (s : string) : bool :=
  match s with
  | EmptyString => true
  | String c s' => negb (c =? "#")%char && hash_free s'
  end.

(** every character is a decimal digit *)
Fixpoint all_digits (s : string) : bool :=
  match s with
  | EmptyString => true
  | String c s' => PyStr.isdigit c && all_digits s'
  end.

(** ** Sample children, sessions and worlds *)

Module Scenario.

(** a command that reads its input and prints nothing *)
Definition quiet_child : child :=
  Child None None None (fun _ _ => None) (fun _ => []) (fun _ => []).

(** a command that answers every input but an empty line with one line
    of output and the end-of-execution marker *)
Definition echo_child : child :=
  Child None None None (fun _ _ => None)
        (fun data => if data =? nl then []
                     else ["hello" ++ nl; "##end_of_execution##" ++ nl])
        (fun _ => []).

(** a command whose stdin pipe is broken *)
Definition broken_child : child :=
  Child None None None
        (fun _ _ => Some "BrokenPipeError: [Errno 32] Broken pipe")
        (fun _ => []) (fun _ => []).

(** a command that cannot be signalled *)
Definition stubborn_child : child :=
  Child (Some "PermissionError: [Errno 1] Operation not permitted")
        None None (fun _ _ => None) (fun _ => []) (fun _ => []).

(** a command that prints an active-line marker and the end-of-execution
    marker on one line *)
Definition one_line_child : child :=
  Child None None None (fun _ _ => None)
        (fun _ => ["##active_line1####end_of_execution##" ++ nl])
        (fun _ => []).

Definition parent_env : dict := [("PATH", "/bin")].

(** each reader takes one step between two looks of the driver *)
Definition round_robin : nat -> list bool := fun _ => [false; true].

(** the world in which the successive [Popen] calls launch [children] *)
Definition world_of (children : list child) : world :=
  World parent_env
        (fun n _ _ => match nth_error children n with
                      | Some c => Ok c
                      | None => Raise "FileNotFoundError: [Errno 2]"
                      end)
        round_robin.

(** a session that already runs [c] and whose snapshot is [e] *)
Definition running (c : child) (e : dict) : session :=
  Session (Some (new_process ["sh"] e c)) e [] false [] [] 1.

(** a command that answers every input but an empty line with four lines
    of output and the end-of-execution marker *)
Definition chatty_child : child :=
  Child None None None (fun _ _ => None)
        (fun data => if data =? nl then []
                     else ["a" ++ nl; "b" ++ nl; "c" ++ nl; "d" ++ nl;
                           "##end_of_execution##" ++ nl])
        (fun _ => []).

(** the readers are held up during the driver's first two looks and then
    work through whatever there is *)
Definition late : nat -> list bool :=
  fun t => if (t <? 2)%nat then []
           else [false; false; false; false; false; true].

(** the readers are ahead of the driver *)
Definition eager : nat -> list bool := fun _ => [false; false; false; true].

(** the world of [world_of] with another schedule *)
Definition world_with (sched : nat -> list bool) (children : list child)
  : world :=
  World parent_env
        (fun n _ _ => match nth_error children n with
                      | Some c => Ok c
                      | None => Raise "FileNotFoundError: [Errno 2]"
                      end)
        sched.



(** a command that answers with an error line that tells of an interrupt *)
Definition interrupt_child : child :=
  Child None None None (fun _ _ => None)
        (fun _ => [])
        (fun _ => ["KeyboardInterrupt" ++ nl]).

End Scenario.

(** the environment [start_process] gives to the child *)
Definition child_env (w : world) : dict :=
  PyDict.set (PyDict.copy (os_environ w)) "PYTHONIOENCODING" "utf-8".

(** the [Popen] object after [terminate()], [stdin.close()] and
    [stdout.close()] *)
Definition shut_down (p : Popen) : Popen :=
  MkPopen (args p) (env p) (os_child p) (stdin_written p) (write_calls p)
          true true true.

(** the texts written to the stdin of the session's process so far *)
Definition stdin_log (s : session) : list string :=
  match process s with
  | Some p => stdin_written p
  | None => []
  end.

(** the three steps of [terminate()] succeed on this child *)
Definition can_shut_down (c : child) : Prop :=
  terminate_error c = None
  /\ stdin_close_error c = None
  /\ stdout_close_error c = None.

Section DriverVocabulary.
Context (w : world) {L : Language}.

(** the session after [start_process()] has replaced its process by a
    newly launched [c] *)
Definition respawned (c : child) (s : session) : session :=
  Session (Some (new_process start_cmd (child_env w) c)) (child_env w)
          (output_queue s) (done s) [] (stderr_reader s)
          (S (popen_calls s)).

(** the session after its process [p] has accepted [data] on stdin: the
    text is in the log and the lines printed in answer are work for the
    readers *)
Definition accepted (data : string) (p : Popen) (s : session) : session :=
  Session (Some (MkPopen (args p) (env p) (os_child p)
                         (stdin_written p ++ [data])%list
                         (S (write_calls p)) (terminated p)
                         (stdin_closed p) (stdout_closed p)))
          (env_vars s) (output_queue s) (done s)
          (stdout_reader s
           ++ handle_stream_output (stdout_lines (os_child p) data) false)%list
          (stderr_reader s
           ++ handle_stream_output (stderr_lines (os_child p) data) true)%list
          (popen_calls s).

(** the child of the process of [s'] is the one [s] had or one launched
    by the world *)
Definition child_from (s s' : session) : Prop :=
  forall p', process s' = Some p' ->
    (exists p, process s = Some p /\ os_child p' = os_child p)
    \/ (exists n cmd e, popen w n cmd e = Ok (os_child p')).

End DriverVocabulary.

(** ** Scheduling of the reader threads *)

(** the number of steps the schedule gives to a reader in the [n] looks of
    the driver that start with look [t] *)
Fixpoint steps (sched : nat -> list bool) (is_error_stream : bool)
         (t n : nat) : nat :=
  match n with
  | O => 0
  | S n' =>
      count_occ Bool.bool_dec (sched t) is_error_stream
      + steps sched is_error_stream (S t) n'
  end.

(** neither reader is left behind for ever: whatever is delivered on a
    stream is eventually read *)
Definition fair (sched : nat -> list bool) : Prop :=
  forall is_error_stream t k, exists n, k <= steps sched is_error_stream t n.

Definition reader (is_error_stream : bool) (s : session) : list action :=
  if is_error_stream then stderr_reader s else stdout_reader s.

(** the done-signal is set or a reader is going to set it *)
Definition armed (s : session) : Prop :=
  done s = true
  \/ In SetDone (stdout_reader s)
  \/ In SetDone (stderr_reader s).

(** the readers finish within the [n] looks that start with look [t] *)
Definition exhausted_within (sched : nat -> list bool) (t n : nat)
           (s : session) : Prop :=
  forall b, length (reader b s) <= steps sched b t n.

(** events queued or still to be queued, and signals still to be set *)
Definition load (s : session) : nat :=
  length (output_queue s) + length (stdout_reader s) + length (stderr_reader s).

Section MarkerVocabulary.
Context {L : Language}.

(** the raw line is kept by the postprocessor, is not matched by
    [detect_active_line], and [detect_end_of_execution] holds on it *)
Definition reaches_end (raw : string) : Prop :=
  exists line,
    line_postprocessor raw = Some line
    /\ truthy (detect_active_line line) = false
    /\ truthy (detect_end_of_execution line) = true.

(** the child prints such a line on stdout after reading [data] *)
Definition echoes_marker (c : child) (data : string) : Prop :=
  exists raw, In raw (stdout_lines c data) /\ reaches_end raw.

(** the child of the session's process, if it has one, does *)
Definition session_echoes (data : string) (s : session) : Prop :=
  forall p, process s = Some p -> echoes_marker (os_child p) data.

End MarkerVocabulary.

(** the session a call leaves behind (the session is unchanged while the
    call has not finished) *)
Definition session_after (s : session)
           (r : option (list event * outcome * session)) : session :=
  match r with
  | Some (_, _, s') => s'
  | None => s
  end.

(** the events a call yields and how it ends *)
Definition events_of (r : option (list event * outcome * session))
  : option (list event * outcome) :=
  option_map fst r.

Module TwoCalls.

(** a first call on a new [Shell] session *)
Definition first : option (list event * outcome * session) :=
  @run (Scenario.world_of [Scenario.echo_child]) Markers.Shell
       4 "echo hello" init.

(** a second call on the session the first one leaves, in the same world:
    [os.environ] has not changed *)
Definition second : option (list event * outcome * session) :=
  @run (Scenario.world_of [Scenario.echo_child]) Markers.Shell
       4 "echo hello" (session_after init first).

End TwoCalls.

(** the events a reader is going to put on the queue *)
Fixpoint puts (acts : list action) : list event :=
  match acts with
  | [] => []
  | Put e :: r => e :: puts r
  | SetDone :: r => puts r
  end.

(** the session once everything has been read and yielded *)
Definition drained (s : session) : session :=
  Session (process s) (env_vars s) [] true [] [] (popen_calls s).

(** ** Further vocabulary *)




(** the texts of a list put one after the other *)
Definition join (l : list string) : string :=
  fold_right append EmptyString l.

(** the test of [update_subprocess_env] on an item of the current
    environment: the key is new or its value has changed *)
Definition changed (snapshot : dict) (kv : string * string) : bool :=
  negb (PyDict.mem (fst kv) snapshot)
  || negb (match PyDict.get snapshot (fst kv) with
           | Some v => v =? snd kv
           | None => false
           end).

Section InterruptVocabulary.
Context {L : Language}.

(** the raw line reaches the [KeyboardInterrupt] test and passes it on the
    error stream *)
Definition is_interrupt (raw : string) : Prop :=
  exists line,
    line_postprocessor raw = Some line
    /\ truthy (detect_active_line line) = false
    /\ truthy (detect_end_of_execution line) = false
    /\ PyStr.contains "KeyboardInterrupt" line = true.

(** the child prints such a line on stderr after reading [data] *)
Definition interrupted (c : child) (data : string) : Prop :=
  exists raw, In raw (stderr_lines c data) /\ is_interrupt raw.

(** one of the readers is going to set the done-signal for the answer of
    the child to [data] *)
Definition answer_ends (c : child) (data : string) : Prop :=
  In SetDone (handle_stream_output (stdout_lines c data) false)
  \/ In SetDone (handle_stream_output (stderr_lines c data) true).

End InterruptVocabulary.

(** the events that are queued or that the stdout reader is going to
    queue, in the order the driver gets them when stderr is silent *)
Definition backlog (s : session) : list event :=
  (output_queue s ++ puts (stdout_reader s))%list.

(** the events that are queued or that a reader is going to queue *)
Definition pool (s : session) : list event :=
  (output_queue s ++ puts (stdout_reader s) ++ puts (stderr_reader s))%list.


(** * Properties *)

(** ** Strings *)

Module PyStrFacts.
Import PyStr.

Lemma startswith_app p s t :
  startswith p s = true -> startswith p (s ++ t) = true.
Proof.
  revert s; induction p as [|a p IH]; intros [|b s]; simpl; try easy.
  intros H. apply andb_true_iff in H as [Hab Hp].
  now rewrite Hab, IH.
Qed.

Lemma contains_app_l sub s t :
  contains sub s = true -> contains sub (s ++ t) = true.
Proof.
  induction s as [|c s IH]; simpl.
  - rewrite orb_false_r. intros H.
    destruct sub; [now destruct t | discriminate].
  - intros H. apply orb_true_iff in H as [H|H].
    + change (String c (s ++ t)) with (String c s ++ t).
      now rewrite (startswith_app _ _ t H).
    + rewrite (IH H). apply orb_true_r.
Qed.

Lemma contains_lstrip sub s :
  contains sub (lstrip s) = true -> contains sub s = true.
Proof.
  induction s as [|c s IH]; simpl; [easy|].
  destruct (isspace c); [|easy].
  intros H. rewrite (IH H). apply orb_true_r.
Qed.

Lemma rstrip_is_prefix s : exists t, s = rstrip s ++ t.
Proof.
  induction s as [|c s [t IH]]; simpl.
  - now exists EmptyString.
  - destruct (rstrip s) as [|d r] eqn:E.
    + destruct (isspace c).
      * now exists (String c s).
      * exists s. reflexivity.
    + exists t. simpl. now rewrite IH at 1.
Qed.

Lemma contains_rstrip sub s :
  contains sub (rstrip s) = true -> contains sub s = true.
Proof.
  intros H. destruct (rstrip_is_prefix s) as [t E].
  rewrite E. now apply contains_app_l.
Qed.

(** [strip] never creates an occurrence of a text *)
Lemma contains_strip sub s :
  contains sub (strip s) = true -> contains sub s = true.
Proof.
  unfold strip. intros H. now apply contains_lstrip, contains_rstrip.
Qed.

Lemma replace_from_skip old new a b :
  replace_from old new (String.length a) (a ++ b) = replace_from old new 0 b.
Proof. induction a as [|c a IH]; simpl; [reflexivity | exact IH]. Qed.

Lemma startswith_cons a p c s :
  startswith (String a p) (String c s) = (a =? c)%char && startswith p s.
Proof. reflexivity. Qed.

Lemma hash_free_cons c s :
  hash_free (String c s) = negb (c =? "#")%char && hash_free s.
Proof. reflexivity. Qed.

Lemma startswith_end_token_hash c s :
  startswith end_token (String c s) = true -> c = "#"%char.
Proof.
  unfold end_token. rewrite startswith_cons. intros H.
  apply andb_true_iff in H as [H _].
  symmetry. now apply Ascii.eqb_eq.
Qed.

Lemma hash_free_no_start c s :
  hash_free (String c s) = true -> startswith end_token (String c s) = false.
Proof.
  rewrite hash_free_cons. intros H. apply andb_true_iff in H as [H _].
  destruct (startswith end_token (String c s)) eqn:E; [|reflexivity].
  apply startswith_end_token_hash in E. subst c. discriminate.
Qed.

Lemma hash_free_app a b :
  hash_free (a ++ b) = hash_free a && hash_free b.
Proof.
  induction a as [|c a IH]; simpl; [reflexivity|].
  now rewrite IH, andb_assoc.
Qed.

Lemma hash_free_contains s :
  hash_free s = true -> contains end_token s = false.
Proof.
  induction s as [|c s IH]; [reflexivity|].
  intros H. change (contains end_token (String c s))
    with (startswith end_token (String c s) || contains end_token s).
  rewrite (hash_free_no_start _ _ H). rewrite hash_free_cons in H.
  apply andb_true_iff in H as [_ H]. now rewrite IH.
Qed.

(** the text before the first [#] is copied as it is *)
Lemma replace_hash_free_app pre rest :
  hash_free pre = true ->
  replace (pre ++ rest) end_token EmptyString = pre ++ replace rest end_token EmptyString.
Proof.
  unfold replace. induction pre as [|c pre IH]; [reflexivity|].
  intros H.
  change (String c pre ++ rest) with (String c (pre ++ rest)).
  change (replace_from end_token EmptyString 0 (String c (pre ++ rest)))
    with (if startswith end_token (String c (pre ++ rest))
          then EmptyString ++ replace_from end_token EmptyString (String.length end_token - 1)
                                  (pre ++ rest)
          else String c (replace_from end_token EmptyString 0 (pre ++ rest))).
  assert (E : startswith end_token (String c (pre ++ rest)) = false).
  { destruct (startswith end_token (String c (pre ++ rest))) eqn:E;
      [|reflexivity].
    apply startswith_end_token_hash in E. subst c. discriminate. }
  rewrite E. rewrite hash_free_cons in H. apply andb_true_iff in H as [_ H].
  now rewrite (IH H).
Qed.

Lemma append_empty_r s : s ++ EmptyString = s.
Proof. induction s as [|c s IH]; simpl; [reflexivity | now rewrite IH]. Qed.

Lemma replace_hash_free s :
  hash_free s = true -> replace s end_token EmptyString = s.
Proof.
  intros H. rewrite <- (append_empty_r s) at 1.
  rewrite (replace_hash_free_app _ _ H).
  unfold replace. simpl. apply append_empty_r.
Qed.

(** an occurrence of the token at the start is passed over *)
Lemma replace_end_token_app rest :
  replace (end_token ++ rest) end_token EmptyString = replace rest end_token EmptyString.
Proof.
  unfold replace, end_token.
  exact (replace_from_skip "##end_of_execution##" EmptyString
                           "#end_of_execution##" rest).
Qed.

(** one marker between two texts without [#] *)
Lemma replace_single_marker pre post :
  hash_free pre = true -> hash_free post = true ->
  replace (pre ++ end_token ++ post) end_token EmptyString = pre ++ post.
Proof.
  intros Hpre Hpost.
  now rewrite (replace_hash_free_app _ _ Hpre), replace_end_token_app,
    (replace_hash_free _ Hpost).
Qed.

Lemma sub_active_line_from_short n s :
  String.length s <= n -> sub_active_line_from n s = EmptyString.
Proof.
  revert n; induction s as [|c s IH]; intros n H; [reflexivity|].
  simpl in H. destruct n as [|n]; [lia|].
  simpl. apply IH. lia.
Qed.

Lemma digits_all_digits ds rest :
  all_digits ds = true ->
  digits (ds ++ String "#" rest) = String.length ds.
Proof.
  intros H. induction ds as [|c ds IH]; [reflexivity|].
  simpl in *. apply andb_true_iff in H as [Hc H].
  now rewrite Hc, IH.
Qed.

Lemma drop_app a b : drop (String.length a) (a ++ b) = b.
Proof. induction a as [|c a IH]; [reflexivity | exact IH]. Qed.

Lemma length_append a b :
  String.length (a ++ b) = String.length a + String.length b.
Proof. induction a as [|c a IH]; simpl; [reflexivity | now rewrite IH]. Qed.

(** a line that is one active-line marker and nothing else *)
Lemma sub_active_line_marker ds :
  all_digits ds = true -> ds <> EmptyString ->
  sub_active_line ("##active_line" ++ ds ++ "##") = EmptyString.
Proof.
  intros Hd Hne. unfold sub_active_line.
  change ("##active_line" ++ ds ++ "##")
    with (String "#" ("#active_line" ++ ds ++ "##")).
  change (sub_active_line_from 0 (String "#" ("#active_line" ++ ds ++ "##")))
    with (match match_active_line ("##active_line" ++ ds ++ "##") with
          | Some n => sub_active_line_from (n - 1) ("#active_line" ++ ds ++ "##")
          | None => String "#" (sub_active_line_from 0
                                  ("#active_line" ++ ds ++ "##"))
          end).
  assert (E : match_active_line ("##active_line" ++ ds ++ "##")
              = Some (13 + String.length ds + 2)).
  { unfold match_active_line.
    change (startswith "##active_line" ("##active_line" ++ ds ++ "##"))
      with (startswith EmptyString (ds ++ "##")
            && true && true && true && true && true && true && true
            && true && true && true && true && true && true).
    change (drop 13 ("##active_line" ++ ds ++ "##")) with (ds ++ "##").
    rewrite (digits_all_digits ds "#" Hd), drop_app.
    destruct ds as [|c ds]; [congruence|]. reflexivity. }
  rewrite E. apply sub_active_line_from_short.
  rewrite length_append, length_append. simpl. lia.
Qed.

End PyStrFacts.

(** ** The stream demultiplexer *)

Section DemultiplexerFacts.
Context {L : Language}.

(** The line that reaches the end-of-execution branch. *)
Lemma handle_line_end is_error_stream raw line :
  line_postprocessor raw = Some line ->
  truthy (detect_active_line line) = false ->
  truthy (detect_end_of_execution line) = true ->
  handle_line is_error_stream raw
  = ((if truthy (VStr (PyStr.strip (PyStr.replace line end_token EmptyString)))
      then [Put (output_event (PyStr.strip (PyStr.replace line end_token EmptyString)))]
      else []) ++ [SetDone])%list.
Proof.
  intros Hp Ha He. unfold handle_line. now rewrite Hp, Ha, He.
Qed.

(** The line matched by [detect_active_line]. *)
Lemma handle_line_active is_error_stream raw line :
  line_postprocessor raw = Some line ->
  truthy (detect_active_line line) = true ->
  handle_line is_error_stream raw
  = Put (active_line_event (detect_active_line line))
    :: (if truthy (VStr (PyStr.sub_active_line line))
        then [Put (output_event (PyStr.sub_active_line line))]
        else []).
Proof.
  intros Hp Ha. unfold handle_line. now rewrite Hp, Ha.
Qed.

(** Any marker [##active_line<digits>##] alone on its line gives the
    active-line event and nothing else. *)
Lemma active_line_marker_only is_error_stream raw ds :
  all_digits ds = true -> ds <> EmptyString ->
  line_postprocessor raw = Some ("##active_line" ++ ds ++ "##") ->
  truthy (detect_active_line ("##active_line" ++ ds ++ "##")) = true ->
  handle_line is_error_stream raw
  = [Put (active_line_event
            (detect_active_line ("##active_line" ++ ds ++ "##")))].
Proof.
  intros Hd Hne Hp Ha.
  rewrite (handle_line_active _ _ _ Hp Ha).
  now rewrite (PyStrFacts.sub_active_line_marker ds Hd Hne).
Qed.

(** C3 (amended).  A line kept by the postprocessor, not matched by
    [detect_active_line] and on which [detect_end_of_execution] holds: the
    residual is the line with the occurrences of [##end_of_execution##]
    deleted in one pass from left to right and then stripped; it is put on
    the queue as an output event only if it is not empty, and then the
    done-signal is set.  The residual holds no token when the one-pass
    deletion leaves none, which is the case of one marker between two
    texts without [#]. *)
Theorem end_of_execution_line is_error_stream raw line :
  line_postprocessor raw = Some line ->
  truthy (detect_active_line line) = false ->
  truthy (detect_end_of_execution line) = true ->
  let residual := PyStr.strip (PyStr.replace line end_token EmptyString) in
  handle_line is_error_stream raw
  = ((if residual =? EmptyString then [] else [Put (output_event residual)])
     ++ [SetDone])%list
  /\ (PyStr.contains end_token (PyStr.replace line end_token EmptyString) = false ->
      PyStr.contains end_token residual = false)
  /\ (forall pre post,
        line = pre ++ end_token ++ post ->
        hash_free pre = true -> hash_free post = true ->
        residual = PyStr.strip (pre ++ post)
        /\ PyStr.contains end_token residual = false).
Proof.
  intros Hp Ha He residual.
  assert (Hkeep : PyStr.contains end_token (PyStr.replace line end_token EmptyString)
                  = false ->
                  PyStr.contains end_token residual = false).
  { intros Hn. destruct (PyStr.contains end_token residual) eqn:E;
      [|reflexivity].
    apply PyStrFacts.contains_strip in E. congruence. }
  split; [|split].
  - rewrite (handle_line_end _ _ _ Hp Ha He). fold residual.
    simpl. now destruct (residual =? EmptyString).
  - exact Hkeep.
  - intros pre post -> Hpre Hpost.
    assert (E : PyStr.replace (pre ++ end_token ++ post) end_token EmptyString
                = pre ++ post)
      by now apply PyStrFacts.replace_single_marker.
    split.
    + unfold residual. now rewrite E.
    + apply Hkeep. rewrite E. apply PyStrFacts.hash_free_contains.
      now rewrite PyStrFacts.hash_free_app, Hpre, Hpost.
Qed.

(** C4 (amended).  The line [x=1##active_line3## done], for which
    [detect_active_line] returns 3, gives an active-line event with
    payload 3 followed by an output event whose content is [x=1 done]:
    the marker is cut out and the text on both sides of it is kept. *)
Theorem active_line_with_text is_error_stream raw :
  line_postprocessor raw = Some "x=1##active_line3## done" ->
  detect_active_line "x=1##active_line3## done" = VInt 3 ->
  handle_line is_error_stream raw
  = [Put (active_line_event (VInt 3)); Put (output_event "x=1 done")].
Proof.
  intros Hp Ha.
  rewrite (handle_line_active _ _ _ Hp); rewrite Ha; reflexivity.
Qed.

(** When the line handed to the recognisers is [##active_line7##] and
    nothing else, not even a newline, and [detect_active_line] returns 7
    for it, the reader puts exactly one active-line event with payload 7
    and no output event. *)
Theorem active_line_marker_alone is_error_stream raw :
  line_postprocessor raw = Some "##active_line7##" ->
  detect_active_line "##active_line7##" = VInt 7 ->
  handle_line is_error_stream raw = [Put (active_line_event (VInt 7))].
Proof.
  intros Hp Ha.
  pose proof (active_line_marker_only is_error_stream raw "7" eq_refl) as H.
  cbn [append] in H. rewrite Ha in H.
  apply H; [discriminate | exact Hp | reflexivity].
Qed.

(** C5 fails on the code.  The physical line [##active_line7##] as
    [readline] delivers it ends with its newline, and the postprocessor of
    the class keeps the line as it is.  After the marker is cut out the
    residual is that newline, which is not empty: the reader puts the
    active-line event with payload 7 and then an output event whose
    content is the newline.  The test [if line:] of the branch is there to
    skip an empty residual, and the end-of-execution branch strips the
    line before the same test. *)
Theorem active_line_marker_newline_event is_error_stream raw :
  line_postprocessor raw = Some ("##active_line7##" ++ nl) ->
  detect_active_line ("##active_line7##" ++ nl) = VInt 7 ->
  handle_line is_error_stream raw
  = [Put (active_line_event (VInt 7)); Put (output_event nl)].
Proof.
  intros Hp Ha.
  rewrite (handle_line_active _ _ _ Hp); rewrite Ha; reflexivity.
Qed.

End DemultiplexerFacts.

Lemma end_of_execution_line_witness :
  @handle_line Markers.Shell false ("  out ##end_of_execution## " ++ nl)
  = [Put (output_event "out"); SetDone].
Proof.
  exact (proj1 (@end_of_execution_line Markers.Shell false
                  ("  out ##end_of_execution## " ++ nl) _
                  eq_refl eq_refl eq_refl)).
Defined.

(** The claim C3 as it stands fails: deleting the inner marker of this line
    puts the two halves of an outer one together, and the token itself is
    the content of the output event. *)
Lemma end_of_execution_line_counterexample :
  @line_postprocessor Markers.Shell "##end_of_ex##end_of_execution##ecution##"
  = Some "##end_of_ex##end_of_execution##ecution##"
  /\ truthy (@detect_active_line Markers.Shell
               "##end_of_ex##end_of_execution##ecution##") = false
  /\ truthy (@detect_end_of_execution Markers.Shell
               "##end_of_ex##end_of_execution##ecution##") = true
  /\ @handle_line Markers.Shell false "##end_of_ex##end_of_execution##ecution##"
     = [Put (output_event "##end_of_execution##"); SetDone].
Proof. repeat split. Qed.

Lemma active_line_with_text_witness :
  @handle_line Markers.Shell false "x=1##active_line3## done"
  = [Put (active_line_event (VInt 3)); Put (output_event "x=1 done")].
Proof.
  apply (@active_line_with_text Markers.Shell false); reflexivity.
Defined.

(** The claim C4 as it stands fails: the content of the output event is
    not [" done"]. *)
Lemma active_line_with_text_counterexample :
  @line_postprocessor Markers.Shell "x=1##active_line3## done"
  = Some "x=1##active_line3## done"
  /\ @detect_active_line Markers.Shell "x=1##active_line3## done" = VInt 3
  /\ @handle_line Markers.Shell false "x=1##active_line3## done"
     <> [Put (active_line_event (VInt 3)); Put (output_event " done")].
Proof. repeat split. discriminate. Qed.

Lemma active_line_marker_alone_witness :
  @handle_line Markers.Shell false "##active_line7##"
  = [Put (active_line_event (VInt 7))].
Proof.
  apply (@active_line_marker_alone Markers.Shell false); reflexivity.
Defined.

Lemma active_line_marker_newline_event_witness :
  @handle_line Markers.Shell false ("##active_line7##" ++ nl)
  = [Put (active_line_event (VInt 7)); Put (output_event nl)].
Proof.
  apply (@active_line_marker_newline_event Markers.Shell false); reflexivity.
Defined.

(** ** Dictionaries *)

Module PyDictFacts.
Import PyDict.

Lemma get_In d k v : get d k = Some v -> In (k, v) d.
Proof.
  induction d as [|[k' v'] d IH]; simpl; [discriminate|].
  destruct (k' =? k) eqn:E.
  - apply String.eqb_eq in E. intros [= ->]. left. now subst.
  - intros H. right. now apply IH.
Qed.

Lemma get_None d k : get d k = None -> ~ In k (keys d).
Proof.
  induction d as [|[k' v'] d IH]; simpl; [tauto|].
  destruct (k' =? k) eqn:E; [discriminate|].
  apply String.eqb_neq in E. intros H [H'|H']; [congruence | now apply IH].
Qed.

Lemma In_keys d k v : In (k, v) d -> In k (keys d).
Proof. intros H. apply (in_map fst) in H. exact H. Qed.

Lemma In_get d k v : wf d -> In (k, v) d -> get d k = Some v.
Proof.
  unfold wf. induction d as [|[k' v'] d IH]; simpl; [tauto|].
  intros Hnd [H|H].
  - injection H as -> ->. now rewrite String.eqb_refl.
  - inversion Hnd as [|? ? Hnotin Hnd']; subst.
    destruct (k' =? k) eqn:E.
    + apply String.eqb_eq in E. subst k'.
      exfalso. apply Hnotin. now apply In_keys with v.
    + now apply IH.
Qed.

(** [d1 == d2] makes the two dictionaries agree on every key. *)
Lemma eqb_get d1 d2 :
  wf d1 -> eqb d1 d2 = true -> forall k, get d1 k = get d2 k.
Proof.
  unfold eqb. intros Hwf H k.
  apply andb_true_iff in H as [Hlen Hall].
  apply Nat.eqb_eq in Hlen.
  rewrite forallb_forall in Hall.
  assert (Hsub : forall k v, In (k, v) d1 -> get d2 k = Some v).
  { intros k0 v0 Hin. specialize (Hall _ Hin). simpl in Hall.
    destruct (get d2 k0) as [v1|]; [|discriminate].
    apply String.eqb_eq in Hall. now subst. }
  assert (Hincl : incl (keys d1) (keys d2)).
  { intros k0 Hk. apply in_map_iff in Hk as [[k1 v1] [E Hin]].
    simpl in E. subst k1. apply Hsub in Hin.
    apply get_In in Hin. now apply In_keys with v1. }
  assert (Hback : incl (keys d2) (keys d1)).
  { apply NoDup_length_incl; [exact Hwf | | exact Hincl].
    unfold keys. rewrite !length_map. lia. }
  destruct (get d1 k) as [v|] eqn:E1.
  - symmetry. apply Hsub. now apply get_In.
  - destruct (get d2 k) as [v|] eqn:E2; [|reflexivity].
    exfalso. apply (get_None _ _ E1). apply Hback.
    apply In_keys with v. now apply get_In.
Qed.

Lemma eqb_refl d : wf d -> eqb d d = true.
Proof.
  intros Hwf. unfold eqb. rewrite Nat.eqb_refl. simpl.
  apply forallb_forall. intros [k v] Hin. simpl.
  rewrite (In_get _ _ _ Hwf Hin). apply String.eqb_refl.
Qed.

Lemma get_set_same d k v : get (set d k v) k = Some v.
Proof.
  induction d as [|[k' v'] d IH]; simpl.
  - now rewrite String.eqb_refl.
  - destruct (k' =? k) eqn:E; simpl.
    + now rewrite String.eqb_refl.
    + now rewrite E.
Qed.

Lemma get_set_other d k v k0 : k0 <> k -> get (set d k v) k0 = get d k0.
Proof.
  intros Hne. induction d as [|[k' v'] d IH]; simpl.
  - destruct (k =? k0) eqn:E; [|reflexivity].
    apply String.eqb_eq in E. congruence.
  - destruct (k' =? k) eqn:E; simpl.
    + apply String.eqb_eq in E. subst k'.
      destruct (k =? k0) eqn:E'; [|reflexivity].
      apply String.eqb_eq in E'. congruence.
    + now rewrite IH.
Qed.

Lemma keys_set d k v :
  keys (set d k v) = if mem k d then keys d else (keys d ++ [k])%list.
Proof.
  unfold mem. induction d as [|[k' v'] d IH]; simpl; [reflexivity|].
  destruct (k' =? k) eqn:E; simpl.
  - apply String.eqb_eq in E. now subst.
  - rewrite IH. now destruct (get d k).
Qed.

(** [d[k] = v] leaves a dictionary a dictionary. *)
Lemma wf_set d k v : wf d -> wf (set d k v).
Proof.
  unfold wf. intros H. rewrite keys_set. unfold mem.
  destruct (get d k) eqn:E; [exact H|].
  apply get_None in E.
  apply NoDup_rev in H. rewrite <- (rev_involutive (keys d ++ [k])).
  apply NoDup_rev. rewrite rev_app_distr. simpl.
  constructor; [|exact H]. now rewrite <- in_rev.
Qed.

End PyDictFacts.

(** ** The process manager *)

Lemma value_eqb_eq a b : value_eqb a b = true <-> a = b.
Proof.
  destruct a, b; simpl; split; intros H; try easy.
  - now apply Bool.eqb_prop in H as ->.
  - injection H as ->. apply Bool.eqb_reflx.
  - now apply Z.eqb_eq in H as ->.
  - injection H as ->. apply Z.eqb_refl.
  - now apply String.eqb_eq in H as ->.
  - injection H as ->. apply String.eqb_refl.
Qed.

(** The four ways [terminate()] can go on a session with a process. *)
Lemma terminate_cases (s : session) :
  match process s with
  | None => terminate s = (Ok tt, s)
  | Some p =>
      match terminate_error (os_child p) with
      | Some tb => terminate s = (Raise tb, s)
      | None =>
          match stdin_close_error (os_child p) with
          | Some tb =>
              terminate s
              = (Raise tb, with_process (Some (snd (proc_terminate p))) s)
          | None =>
              match stdout_close_error (os_child p) with
              | Some tb =>
                  terminate s
                  = (Raise tb,
                     with_process
                       (Some (snd (proc_stdin_close (snd (proc_terminate p)))))
                       s)
              | None =>
                  terminate s
                  = (Ok tt,
                     with_stdout_reader []
                       (with_process (Some (shut_down p)) s))
              end
          end
      end
  end.
Proof.
  unfold terminate.
  destruct (process s) as [p|] eqn:Hp; [|reflexivity].
  unfold bind, on_process, proc_terminate, proc_stdin_close, proc_stdout_close.
  rewrite Hp.
  destruct (terminate_error (os_child p)) as [tb|] eqn:Et.
  - destruct s; simpl in *; now subst.
  - simpl. destruct (stdin_close_error (os_child p)) as [tb|] eqn:Ei.
    + reflexivity.
    + simpl. destruct (stdout_close_error (os_child p)) as [tb|] eqn:Eo;
        reflexivity.
Qed.

Lemma terminate_no_process s : process s = None -> terminate s = (Ok tt, s).
Proof. intros H. unfold terminate. now rewrite H. Qed.

Lemma terminate_signal_raises s p tb :
  process s = Some p ->
  terminate_error (os_child p) = Some tb ->
  terminate s = (Raise tb, s).
Proof.
  intros Hp Ht. pose proof (terminate_cases s) as H. now rewrite Hp, Ht in H.
Qed.

Lemma terminate_stdin_raises s p tb :
  process s = Some p ->
  terminate_error (os_child p) = None ->
  stdin_close_error (os_child p) = Some tb ->
  terminate s = (Raise tb, with_process (Some (snd (proc_terminate p))) s).
Proof.
  intros Hp Ht Hi. pose proof (terminate_cases s) as H.
  now rewrite Hp, Ht, Hi in H.
Qed.

Lemma terminate_stdout_raises s p tb :
  process s = Some p ->
  terminate_error (os_child p) = None ->
  stdin_close_error (os_child p) = None ->
  stdout_close_error (os_child p) = Some tb ->
  terminate s
  = (Raise tb,
     with_process (Some (snd (proc_stdin_close (snd (proc_terminate p))))) s).
Proof.
  intros Hp Ht Hi Ho. pose proof (terminate_cases s) as H.
  now rewrite Hp, Ht, Hi, Ho in H.
Qed.

Lemma terminate_shuts_down s p :
  process s = Some p ->
  can_shut_down (os_child p) ->
  terminate s
  = (Ok tt, with_stdout_reader [] (with_process (Some (shut_down p)) s)).
Proof.
  intros Hp (Ht & Hi & Ho). pose proof (terminate_cases s) as H.
  now rewrite Hp, Ht, Hi, Ho in H.
Qed.

(** C8 (amended).  [terminate()] does nothing when the session has no
    process.  Otherwise it signals the child, closes its stdin and closes
    its stdout, in that order; the first of the three steps that fails
    raises its exception to the caller and the later steps are not made.
    The call returns normally exactly when there is no process or none of
    the three steps fails. *)
Theorem terminate_outcome (s : session) :
  (process s = None -> terminate s = (Ok tt, s))
  /\ (forall p, process s = Some p ->
        (can_shut_down (os_child p) ->
         terminate s
         = (Ok tt, with_stdout_reader [] (with_process (Some (shut_down p)) s)))
        /\ (forall tb,
              terminate_error (os_child p) = Some tb ->
              terminate s = (Raise tb, s))
        /\ (forall tb,
              terminate_error (os_child p) = None ->
              stdin_close_error (os_child p) = Some tb ->
              terminate s
              = (Raise tb, with_process (Some (snd (proc_terminate p))) s))
        /\ (forall tb,
              terminate_error (os_child p) = None ->
              stdin_close_error (os_child p) = None ->
              stdout_close_error (os_child p) = Some tb ->
              terminate s
              = (Raise tb,
                 with_process
                   (Some (snd (proc_stdin_close (snd (proc_terminate p))))) s)))
  /\ (fst (terminate s) = Ok tt <->
      process s = None
      \/ exists p, process s = Some p /\ can_shut_down (os_child p)).
Proof.
  split; [apply terminate_no_process|]. split.
  - intros p Hp. repeat split.
    + now apply terminate_shuts_down.
    + intros tb. now apply terminate_signal_raises.
    + intros tb. now apply terminate_stdin_raises.
    + intros tb. now apply terminate_stdout_raises.
  - split.
    + intros Hok. destruct (process s) as [p|] eqn:Hp; [right | now left].
      exists p. split; [reflexivity|]. unfold can_shut_down.
      destruct (terminate_error (os_child p)) as [tb|] eqn:Et.
      { rewrite (terminate_signal_raises s p tb Hp Et) in Hok. discriminate. }
      destruct (stdin_close_error (os_child p)) as [tb|] eqn:Ei.
      { rewrite (terminate_stdin_raises s p tb Hp Et Ei) in Hok.
        discriminate. }
      destruct (stdout_close_error (os_child p)) as [tb|] eqn:Eo.
      { rewrite (terminate_stdout_raises s p tb Hp Et Ei Eo) in Hok.
        discriminate. }
      now repeat split.
    + intros [Hn|(p & Hp & Hc)].
      * now rewrite (terminate_no_process s Hn).
      * now rewrite (terminate_shuts_down s p Hp Hc).
Qed.

(** The claim C8 as it stands fails: a child that cannot be signalled makes
    [terminate()] raise. *)
Lemma terminate_counterexample :
  fst (terminate (Scenario.running Scenario.stubborn_child Scenario.parent_env))
  = Raise "PermissionError: [Errno 1] Operation not permitted".
Proof. reflexivity. Qed.

Lemma terminate_popen_calls s : popen_calls (snd (terminate s)) = popen_calls s.
Proof.
  pose proof (terminate_cases s) as H.
  destruct (process s) as [p|]; [|now rewrite H].
  destruct (terminate_error (os_child p)); [now rewrite H|].
  destruct (stdin_close_error (os_child p)); [now rewrite H|].
  destruct (stdout_close_error (os_child p)); now rewrite H.
Qed.

Section ProcessManagerFacts.
Context (w : world) {L : Language}.

(** What [start_process] does once the old process, if any, is out of the
    way. *)
Lemma start_process_eq s :
  start_process w s
  = match (match process s with
           | Some _ => terminate s
           | None => (Ok tt, s)
           end) with
    | (Ok _, s1) => spawn w (child_env w) (with_env_vars (child_env w) s1)
    | (Raise tb, s1) => (Raise tb, s1)
    end.
Proof.
  unfold start_process, bind.
  destruct (match process s with Some _ => terminate s | None => (Ok tt, s) end)
    as [[[]|tb] s1]; reflexivity.
Qed.

(** C9 (amended).  [start_process()] launches the configured command
    with a copy of the current process environment in which
    [PYTHONIOENCODING] is set to [utf-8]; every other variable has the
    value it has in [os.environ], and the same mapping becomes the
    session's snapshot. *)
Theorem start_process_env (s : session) (c : child) :
  fst (terminate s) = Ok tt ->
  popen w (popen_calls s) start_cmd (child_env w) = Ok c ->
  exists s',
    start_process w s = (Ok tt, s')
    /\ process s' = Some (new_process start_cmd (child_env w) c)
    /\ env_vars s' = child_env w
    /\ PyDict.get (child_env w) "PYTHONIOENCODING" = Some "utf-8"
    /\ forall k, k <> "PYTHONIOENCODING" ->
                 PyDict.get (child_env w) k = PyDict.get (os_environ w) k.
Proof.
  intros Ht Hp.
  rewrite start_process_eq.
  assert (E : exists s1,
             (match process s with
              | Some _ => terminate s
              | None => (Ok tt, s)
              end) = (Ok tt, s1) /\ popen_calls s1 = popen_calls s).
  { destruct (process s) as [p|] eqn:Hs.
    - exists (snd (terminate s)). split.
      + destruct (terminate s) as [[[]|tb] s1]; [reflexivity|discriminate].
      + apply terminate_popen_calls.
    - now exists s. }
  destruct E as [s1 [-> Hn]].
  unfold spawn. simpl. rewrite Hn, Hp.
  eexists. split; [reflexivity|].
  repeat split.
  - apply PyDictFacts.get_set_same.
  - intros k Hk. unfold child_env, PyDict.copy.
    now apply PyDictFacts.get_set_other.
Qed.

End ProcessManagerFacts.

Lemma start_process_env_witness :
  exists s',
    @start_process (Scenario.world_of [Scenario.quiet_child]) Markers.Shell init
    = (Ok tt, s')
    /\ process s'
       = Some (new_process ["sh"] [("PATH", "/bin"); ("PYTHONIOENCODING", "utf-8")]
                           Scenario.quiet_child).
Proof.
  destruct (@start_process_env (Scenario.world_of [Scenario.quiet_child])
              Markers.Shell init Scenario.quiet_child eq_refl eq_refl)
    as [s' [H1 [H2 _]]].
  exists s'. split; [exact H1 | exact H2].
Defined.

(** The claim C9 as it stands fails: the mapping given to the child is not
    the contents of [os.environ]. *)
Lemma start_process_env_counterexample :
  exists s' p,
    @start_process (Scenario.world_of [Scenario.quiet_child]) Markers.Shell init
    = (Ok tt, s')
    /\ process s' = Some p
    /\ PyDict.eqb (env p) (os_environ (Scenario.world_of [Scenario.quiet_child]))
       = false
    /\ PyDict.get (env p) "PYTHONIOENCODING" = Some "utf-8"
    /\ PyDict.get (os_environ (Scenario.world_of [Scenario.quiet_child]))
                  "PYTHONIOENCODING" = None.
Proof.
  eexists. eexists.
  split; [lazy; reflexivity|]. split; [lazy; reflexivity|]. repeat split.
Qed.

(** ** The environment synchronizer *)

Section SynchronizerFacts.
Context {L : Language}.

(** No statement is generated for an environment equal to the snapshot. *)
Lemma env_code_unchanged code_format snapshot current_env :
  PyDict.wf snapshot -> PyDict.wf current_env ->
  PyDict.eqb snapshot current_env = true ->
  env_code code_format snapshot current_env = EmptyString.
Proof.
  intros Hs Hc Heq. unfold env_code, PyDict.items.
  assert (Hall : forall k v, In (k, v) current_env ->
                             PyDict.get snapshot k = Some v).
  { intros k v Hin. rewrite (PyDictFacts.eqb_get _ _ Hs Heq).
    now apply PyDictFacts.In_get. }
  clear Heq Hc. generalize EmptyString. revert Hall.
  induction current_env as [|[k v] d IH]; intros Hall acc; [reflexivity|].
  simpl. unfold PyDict.mem.
  rewrite (Hall k v (or_introl eq_refl)), String.eqb_refl. simpl.
  apply IH. intros k0 v0 Hin. apply Hall. now right.
Qed.

Lemma update_subprocess_env_shell current_env s :
  name = VStr "Shell" ->
  update_subprocess_env current_env s
  = (stdin_write (env_code export_format (env_vars s) current_env ++ nl) ;;
     (fun s => (Ok tt, with_env_vars current_env s))) s.
Proof.
  intros H. unfold update_subprocess_env.
  now rewrite (proj2 (value_eqb_eq _ _) H).
Qed.

Lemma update_subprocess_env_skips current_env s :
  name <> VStr "Shell" -> update_subprocess_env current_env s = (Ok tt, s).
Proof.
  intros H. unfold update_subprocess_env.
  destruct (value_eqb name (VStr "Shell")) eqn:E; [|reflexivity].
  apply value_eqb_eq in E. contradiction.
Qed.

(** C10.  In a session whose kind is not [Shell],
    [update_subprocess_env] returns at once: nothing is written to stdin
    and the snapshot, like the rest of the session, is as before. *)
Theorem update_subprocess_env_not_shell current_env s :
  name <> VStr "Shell" ->
  update_subprocess_env current_env s = (Ok tt, s)
  /\ stdin_log (snd (update_subprocess_env current_env s)) = stdin_log s
  /\ env_vars (snd (update_subprocess_env current_env s)) = env_vars s.
Proof.
  intros H.
  pose proof (update_subprocess_env_skips current_env s H) as E.
  rewrite E. repeat split.
Qed.

(** What one write does to the log of stdin. *)
Lemma stdin_write_log data s :
  stdin_log (snd (stdin_write data s)) = stdin_log s
  \/ stdin_log (snd (stdin_write data s)) = (stdin_log s ++ [data])%list.
Proof.
  unfold stdin_write, bind, on_process, stdin_log.
  destruct (process s) as [p|] eqn:Hp; simpl; [|now rewrite Hp; left].
  unfold proc_stdin_write.
  destruct (stdin_closed p); simpl; [now left|].
  destruct (write_error (os_child p) (write_calls p) data); simpl;
    [now left | now right].
Qed.

Lemma stdin_write_then_env_log data e s :
  stdin_log (snd ((stdin_write data ;;
                   (fun s => (Ok tt, with_env_vars e s))) s))
  = stdin_log (snd (stdin_write data s)).
Proof.
  unfold bind. destruct (stdin_write data s) as [[[]|tb] s1]; reflexivity.
Qed.

(** C6 (amended).  A sync with an environment equal to the stored
    snapshot generates no assignment statement.  A session of kind
    [Shell] still writes the empty statement list and its newline, so a
    single newline goes to stdin; a session of any other kind writes
    nothing. *)
Theorem sync_unchanged_env (s : session) (current_env : dict) :
  PyDict.wf (env_vars s) -> PyDict.wf current_env ->
  PyDict.eqb (env_vars s) current_env = true ->
  env_code export_format (env_vars s) current_env = EmptyString
  /\ (name = VStr "Shell" ->
      update_subprocess_env current_env s
      = (stdin_write nl ;; (fun s => (Ok tt, with_env_vars current_env s))) s)
  /\ (name <> VStr "Shell" ->
      update_subprocess_env current_env s = (Ok tt, s))
  /\ (stdin_log (snd (update_subprocess_env current_env s)) = stdin_log s
      \/ stdin_log (snd (update_subprocess_env current_env s))
         = (stdin_log s ++ [nl])%list).
Proof.
  intros Hs Hc Heq.
  pose proof (env_code_unchanged export_format _ _ Hs Hc Heq) as Hcode.
  assert (Hshell : name = VStr "Shell" ->
                   update_subprocess_env current_env s
                   = (stdin_write nl ;;
                      (fun s => (Ok tt, with_env_vars current_env s))) s).
  { intros H. rewrite (update_subprocess_env_shell _ _ H). now rewrite Hcode. }
  assert (Hother : name <> VStr "Shell" ->
                   update_subprocess_env current_env s = (Ok tt, s)).
  { intros H. now apply update_subprocess_env_skips. }
  repeat split; try assumption.
  destruct (value_eqb name (VStr "Shell")) eqn:E.
  - apply value_eqb_eq in E. rewrite (Hshell E).
    rewrite stdin_write_then_env_log. apply stdin_write_log.
  - left. rewrite Hother; [reflexivity|].
    intros H. apply value_eqb_eq in H. congruence.
Qed.

End SynchronizerFacts.

Lemma update_subprocess_env_not_shell_witness :
  @update_subprocess_env SubprocessLanguage Scenario.parent_env
     (Scenario.running Scenario.quiet_child [])
  = (Ok tt, Scenario.running Scenario.quiet_child []).
Proof.
  apply (@update_subprocess_env_not_shell SubprocessLanguage).
  simpl. discriminate.
Defined.

Lemma sync_unchanged_env_witness :
  @update_subprocess_env Markers.Shell Scenario.parent_env
     (Scenario.running Scenario.quiet_child Scenario.parent_env)
  = (@stdin_write Markers.Shell nl ;;
     (fun s => (Ok tt, with_env_vars Scenario.parent_env s)))
      (Scenario.running Scenario.quiet_child Scenario.parent_env).
Proof.
  assert (Hwf : PyDict.wf Scenario.parent_env).
  { unfold PyDict.wf. simpl. constructor; [simpl; tauto | constructor]. }
  exact (proj1 (proj2 (@sync_unchanged_env Markers.Shell
                         (Scenario.running Scenario.quiet_child
                                           Scenario.parent_env)
                         Scenario.parent_env Hwf Hwf eq_refl))
               eq_refl).
Defined.

(** The claim C6 as it stands fails: the second of two syncs with the same
    environment writes a newline to the stdin of a [Shell] session. *)
Lemma sync_unchanged_env_counterexample :
  exists s1 s2,
    @update_subprocess_env Markers.Shell Scenario.parent_env
       (Scenario.running Scenario.quiet_child []) = (Ok tt, s1)
    /\ env_vars s1 = Scenario.parent_env
    /\ stdin_log s1 = ["export PATH='/bin'" ++ nl ++ nl]
    /\ @update_subprocess_env Markers.Shell Scenario.parent_env s1 = (Ok tt, s2)
    /\ stdin_log s2 = ["export PATH='/bin'" ++ nl ++ nl; nl].
Proof.
  eexists. eexists.
  split; [lazy; reflexivity|].
  split; [reflexivity|].
  split; [reflexivity|].
  split; [lazy; reflexivity|].
  reflexivity.
Qed.

(** ** The execution driver: writing with retries *)

Section WriteLoopFacts.
Context (w : world) {L : Language}.

Lemma proc_stdin_write_child data p :
  os_child (snd (proc_stdin_write data p)) = os_child p.
Proof.
  unfold proc_stdin_write.
  destruct (stdin_closed p); [reflexivity|].
  now destruct (write_error (os_child p) (write_calls p) data).
Qed.

Lemma stdin_write_raises data s p tb :
  process s = Some p ->
  fst (proc_stdin_write data p) = Raise tb ->
  stdin_write data s
  = (Raise tb, with_process (Some (snd (proc_stdin_write data p))) s).
Proof.
  intros Hp Hw. unfold stdin_write, bind, on_process. rewrite Hp.
  destruct (proc_stdin_write data p) as [[[]|tb'] p'] eqn:E;
    simpl in Hw; [discriminate|].
  now injection Hw as ->.
Qed.

Lemma stdin_write_accepts data s p :
  process s = Some p ->
  fst (proc_stdin_write data p) = Ok tt ->
  stdin_write data s = (Ok tt, accepted data p s).
Proof.
  intros Hp Hw. unfold stdin_write, bind, on_process, accepted. rewrite Hp.
  unfold proc_stdin_write in *.
  destruct (stdin_closed p); [discriminate|].
  destruct (write_error (os_child p) (write_calls p) data); [discriminate|].
  reflexivity.
Qed.

Lemma start_process_respawns s p c :
  process s = Some p ->
  can_shut_down (os_child p) ->
  popen w (popen_calls s) start_cmd (child_env w) = Ok c ->
  start_process w s = (Ok tt, respawned w c s).
Proof.
  intros Hp (Ht & Hi & Ho) Hc.
  rewrite start_process_eq, Hp.
  pose proof (terminate_cases s) as H. rewrite Hp, Ht, Hi, Ho in H.
  rewrite H. unfold spawn. simpl. now rewrite Hc.
Qed.

(** A failed attempt followed by a successful restart. *)
Lemma write_loop_retry fuel code retry_count s p tb c :
  retry_count <= max_retries ->
  process s = Some p ->
  fst (proc_stdin_write (code ++ nl) p) = Raise tb ->
  can_shut_down (os_child p) ->
  popen w (popen_calls s) start_cmd (child_env w) = Ok c ->
  write_loop w (S fuel) code retry_count s
  = let ys := if (retry_count =? 0)%nat then []
              else [retry_event tb retry_count] in
    if (retry_count =? max_retries)%nat then
      Some ((ys ++ [max_retries_event])%list, Return,
            respawned w c (with_done false s))
    else
      match write_loop w fuel code (S retry_count)
                       (respawned w c (with_done false s)) with
      | Some (zs, e, s') => Some ((ys ++ zs)%list, e, s')
      | None => None
      end.
Proof.
  intros Hrc Hp Hw Hs Hc.
  cbn [write_loop].
  rewrite (proj2 (Nat.leb_le _ _) Hrc).
  assert (Hp' : process (with_done false s) = Some p) by exact Hp.
  rewrite (stdin_write_raises _ _ _ _ Hp' Hw).
  rewrite (start_process_respawns _ (snd (proc_stdin_write (code ++ nl) p)) c);
    [| reflexivity | now rewrite proc_stdin_write_child | exact Hc].
  replace (retry_count + 1) with (S retry_count) by lia.
  destruct (Nat.eqb_spec retry_count max_retries) as [->|Hne].
  - simpl. destruct s; reflexivity.
  - replace (max_retries <? S retry_count)%nat with false
      by (symmetry; apply Nat.ltb_ge; lia).
    destruct (retry_count =? 0)%nat; destruct s; reflexivity.
Qed.

(** A successful attempt. *)
Lemma write_loop_accepts fuel code retry_count s p :
  retry_count <= max_retries ->
  process s = Some p ->
  fst (proc_stdin_write (code ++ nl) p) = Ok tt ->
  write_loop w (S fuel) code retry_count s
  = Some ([], Break, accepted (code ++ nl) p (with_done false s)).
Proof.
  intros Hrc Hp Hw. cbn [write_loop].
  rewrite (proj2 (Nat.leb_le _ _) Hrc).
  now rewrite (stdin_write_accepts _ (with_done false s) p Hp Hw).
Qed.

End WriteLoopFacts.

Section RetryBound.
Context (w : world) {L : Language}.

Lemma stdin_write_popen_calls data s :
  popen_calls (snd (stdin_write data s)) = popen_calls s.
Proof.
  unfold stdin_write, bind, on_process.
  destruct (process s) as [p|] eqn:Hp; [|reflexivity].
  destruct (proc_stdin_write data p) as [[[]|tb] p']; simpl; reflexivity.
Qed.

Lemma start_process_popen_calls s :
  popen_calls (snd (start_process w s)) <= S (popen_calls s).
Proof.
  rewrite start_process_eq.
  assert (H : popen_calls
                (snd (match process s with
                      | Some _ => terminate s
                      | None => (Ok tt, s)
                      end)) = popen_calls s).
  { destruct (process s); [apply terminate_popen_calls | reflexivity]. }
  destruct (match process s with Some _ => terminate s | None => (Ok tt, s) end)
    as [[[]|tb] s1]; simpl in *; [|lia].
  unfold spawn. simpl.
  destruct (popen w (popen_calls s1) start_cmd (child_env w)); simpl; lia.
Qed.

(** The loop restarts the process at most [max_retries + 1] times, and at
    most [max_retries] times when it ends with the code written. *)
Lemma write_loop_restarts fuel : forall code retry_count s ys e s',
  retry_count <= max_retries ->
  write_loop w fuel code retry_count s = Some (ys, e, s') ->
  popen_calls s' + retry_count <= popen_calls s + S max_retries
  /\ (e = Break -> popen_calls s' + retry_count <= popen_calls s + max_retries).
Proof.
  induction fuel as [|fuel IH]; intros code rc s ys e s' Hrc H;
    [discriminate|].
  cbn [write_loop] in H.
  rewrite (proj2 (Nat.leb_le _ _) Hrc) in H.
  pose proof (stdin_write_popen_calls (code ++ nl) (with_done false s)) as Hw.
  destruct (stdin_write (code ++ nl) (with_done false s)) as [[[]|tb] s1].
  - injection H as <- <- <-. simpl in Hw. rewrite Hw. simpl. lia.
  - pose proof (start_process_popen_calls s1) as Hs.
    destruct (start_process w s1) as [[[]|tb'] s2]; simpl in Hw, Hs.
    + destruct (max_retries <? rc + 1)%nat eqn:Hlt.
      * injection H as <- <- <-. simpl in *. split; [lia | discriminate].
      * apply Nat.ltb_ge in Hlt.
        destruct (write_loop w fuel code (rc + 1) s2)
          as [[[zs e2] s3]|] eqn:Hrec; [|discriminate].
        injection H as <- <- <-.
        destruct (IH _ _ _ _ _ _ Hlt Hrec) as [H1 H2].
        simpl in *. split; [lia|]. intros He. specialize (H2 He). lia.
    + injection H as <- <- <-. simpl in *. split; [lia | discriminate].
Qed.

(** Four iterations are enough for the loop to end. *)
Lemma write_loop_total fuel : forall code retry_count s,
  retry_count <= max_retries ->
  S max_retries <= fuel + retry_count ->
  exists r, write_loop w fuel code retry_count s = Some r.
Proof.
  induction fuel as [|fuel IH]; intros code rc s Hrc Hf;
    [unfold max_retries in *; lia|].
  cbn [write_loop].
  rewrite (proj2 (Nat.leb_le _ _) Hrc).
  destruct (stdin_write (code ++ nl) (with_done false s)) as [[[]|tb] s1];
    [now eexists|].
  destruct (start_process w s1) as [[[]|tb'] s2]; [|now eexists].
  destruct (max_retries <? rc + 1)%nat eqn:Hlt; [now eexists|].
  apply Nat.ltb_ge in Hlt.
  destruct (IH code (rc + 1) s2 Hlt) as [[[zs e] s3] ->]; [lia|].
  now eexists.
Qed.

(** More fuel does not change a result. *)
Lemma write_loop_more_fuel fuel : forall fuel' code retry_count s r,
  fuel <= fuel' ->
  write_loop w fuel code retry_count s = Some r ->
  write_loop w fuel' code retry_count s = Some r.
Proof.
  induction fuel as [|fuel IH]; intros fuel' code rc s r Hle H;
    [discriminate|].
  destruct fuel' as [|fuel']; [lia|].
  cbn [write_loop] in *.
  destruct (rc <=? max_retries)%nat; [|exact H].
  destruct (stdin_write (code ++ nl) (with_done false s)) as [[[]|tb] s1];
    [exact H|].
  destruct (start_process w s1) as [[[]|tb'] s2]; [|exact H].
  destruct (max_retries <? rc + 1)%nat; [exact H|].
  destruct (write_loop w fuel code (rc + 1) s2) as [r2|] eqn:Hrec;
    [|discriminate].
  rewrite (IH fuel' _ _ _ r2); [exact H | lia | exact Hrec].
Qed.

End RetryBound.


(** ** The execution driver: draining the queue *)

Section ReaderFacts.

Lemma reader_step_length b b' s :
  length (reader b (reader_step s b'))
  = if Bool.eqb b b' then pred (length (reader b s))
    else length (reader b s).
Proof.
  unfold reader_step.
  destruct b, b'; simpl.
  - destruct (stderr_reader s) as [|[e|] r] eqn:E; simpl; now rewrite ?E.
  - destruct (stdout_reader s) as [|[e|] r] eqn:E; simpl; reflexivity.
  - destruct (stderr_reader s) as [|[e|] r] eqn:E; simpl; reflexivity.
  - destruct (stdout_reader s) as [|[e|] r] eqn:E; simpl; now rewrite ?E.
Qed.

Lemma readers_run_length b l : forall s,
  length (reader b (readers_run l s))
  = length (reader b s) - count_occ Bool.bool_dec l b.
Proof.
  unfold readers_run.
  induction l as [|b' l IH]; intros s; simpl; [lia|].
  rewrite IH, reader_step_length.
  destruct (Bool.bool_dec b' b) as [->|Hne].
  - rewrite Bool.eqb_reflx. lia.
  - replace (Bool.eqb b b') with false; [reflexivity|].
    symmetry. apply Bool.eqb_false_iff. congruence.
Qed.

Lemma reader_step_load s b : load (reader_step s b) <= load s.
Proof.
  unfold reader_step, load.
  destruct b.
  - destruct (stderr_reader s) as [|[e|] r] eqn:E; simpl;
      rewrite ?E, ?length_app; simpl; lia.
  - destruct (stdout_reader s) as [|[e|] r] eqn:E; simpl;
      rewrite ?E, ?length_app; simpl; lia.
Qed.

Lemma readers_run_load l : forall s, load (readers_run l s) <= load s.
Proof.
  unfold readers_run.
  induction l as [|b l IH]; intros s; simpl; [lia|].
  etransitivity; [apply IH | apply reader_step_load].
Qed.

Lemma reader_step_armed s b : armed s <-> armed (reader_step s b).
Proof.
  unfold reader_step, armed.
  destruct b.
  - destruct (stderr_reader s) as [|[e|] r] eqn:E; simpl;
      rewrite ?E; simpl; intuition (try discriminate; auto).
  - destruct (stdout_reader s) as [|[e|] r] eqn:E; simpl;
      rewrite ?E; simpl; intuition (try discriminate; auto).
Qed.

Lemma readers_run_armed l : forall s, armed s <-> armed (readers_run l s).
Proof.
  unfold readers_run.
  induction l as [|b l IH]; intros s; simpl; [tauto|].
  rewrite <- IH. apply reader_step_armed.
Qed.

Lemma queue_get_some s e s' :
  queue_get s = (Some e, s') ->
  S (load s') = load s
  /\ (armed s <-> armed s')
  /\ forall b, reader b s' = reader b s.
Proof.
  unfold queue_get, load, armed.
  destruct (output_queue s) as [|e' q] eqn:E; [discriminate|].
  intros [= <- <-]. simpl. rewrite ?E. simpl.
  split; [lia|]. split; [tauto|]. now destruct b.
Qed.

Lemma queue_get_none s s' : queue_get s = (None, s') -> s' = s.
Proof.
  unfold queue_get. destruct (output_queue s); [|discriminate].
  now intros [= <-].
Qed.

Lemma queue_get_load s : load (snd (queue_get s)) <= load s.
Proof.
  destruct (queue_get s) as [[e|] s'] eqn:E; simpl.
  - apply queue_get_some in E. lia.
  - apply queue_get_none in E. subst. lia.
Qed.

Lemma queue_get_armed s : armed s <-> armed (snd (queue_get s)).
Proof.
  destruct (queue_get s) as [[e|] s'] eqn:E; simpl.
  - now apply queue_get_some in E.
  - apply queue_get_none in E. now subst.
Qed.

Lemma queue_get_reader b s : reader b (snd (queue_get s)) = reader b s.
Proof.
  destruct (queue_get s) as [[e|] s'] eqn:E; simpl.
  - now apply queue_get_some in E.
  - apply queue_get_none in E. now subst.
Qed.

End ReaderFacts.

Section DrainFacts.
Context (w : world) {L : Language}.

Lemma steps_mono b t n n' :
  n <= n' -> steps (schedule w) b t n <= steps (schedule w) b t n'.
Proof.
  revert t n'. induction n as [|n IH]; intros t n' H; simpl; [lia|].
  destruct n' as [|n']; [lia|]. simpl.
  specialize (IH (S t) n'). lia.
Qed.

Lemma fair_exhausted_within t s :
  fair (schedule w) -> exists n, exhausted_within (schedule w) t n s.
Proof.
  intros Hf.
  destruct (Hf false t (length (stdout_reader s))) as [n1 H1].
  destruct (Hf true t (length (stderr_reader s))) as [n2 H2].
  exists (Nat.max n1 n2). intros [|]; simpl.
  - etransitivity; [exact H2 | apply steps_mono; lia].
  - etransitivity; [exact H1 | apply steps_mono; lia].
Qed.

Lemma observe_exhausted t n s :
  exhausted_within (schedule w) t n s ->
  exhausted_within (schedule w) (S t) (pred n) (observe w t s).
Proof.
  intros H b. specialize (H b). unfold observe.
  rewrite readers_run_length.
  destruct n as [|n]; simpl in *; lia.
Qed.

Lemma queue_get_exhausted t n s :
  exhausted_within (schedule w) t n s ->
  exhausted_within (schedule w) t n (snd (queue_get s)).
Proof. intros H b. rewrite queue_get_reader. apply H. Qed.

Lemma exhausted_within_pending b t n s :
  exhausted_within (schedule w) t n s -> In SetDone (reader b s) -> 1 <= n.
Proof.
  intros H Hin. specialize (H b).
  destruct (reader b s); [contradiction|].
  destruct n; simpl in *; lia.
Qed.

(** One pass of the [while True] loop. *)
Lemma drain_step fuel t s :
  drain w (S fuel) t s
  = let s1 := snd (queue_get (observe w t s)) in
    let o1 := fst (queue_get (observe w t s)) in
    let s2 := observe w (t + 1) s1 in
    match fst (queue_get s2) with
    | Some output =>
        match drain w fuel (t + 2) (snd (queue_get s2)) with
        | Some (ys, s') => Some ((yielded o1 ++ output :: ys)%list, s')
        | None => None
        end
    | None =>
        let s3 := observe w (t + 2) s2 in
        if done s3 then
          Some ((yielded o1 ++ fst (grace w 3 (t + 3) s3))%list,
                snd (grace w 3 (t + 3) s3))
        else
          match drain w fuel (t + 3) s3 with
          | Some (ys, s') => Some ((yielded o1 ++ ys)%list, s')
          | None => None
          end
    end.
Proof.
  cbn [drain].
  destruct (queue_get (observe w t s)) as [o1 s1]. cbn [fst snd].
  destruct (queue_get (observe w (t + 1) s1)) as [[e|] s2'] eqn:E2;
    cbn [fst snd].
  - reflexivity.
  - apply queue_get_none in E2. subst s2'.
    destruct (done (observe w (t + 2) (observe w (t + 1) s1)));
      [|reflexivity].
    now destruct (grace w 3 (t + 3)
                    (observe w (t + 2) (observe w (t + 1) s1))).
Qed.

(** When the done-signal is set or going to be set and the readers get
    their turns, the loop ends. *)
Lemma drain_terminates_within m : forall t n s,
  n + load s <= m ->
  armed s ->
  exhausted_within (schedule w) t n s ->
  exists fuel r, drain w fuel t s = Some r.
Proof.
  induction m as [m IH] using lt_wf_ind.
  intros t n s Hm Ha Hx.
  pose (s1 := snd (queue_get (observe w t s))).
  pose (s2 := observe w (t + 1) s1).
  assert (Hl1 : load s1 <= load s).
  { unfold s1. etransitivity; [apply queue_get_load|].
    apply readers_run_load. }
  assert (Ha1 : armed s1).
  { unfold s1. apply (proj1 (queue_get_armed _)).
    now apply (proj1 (readers_run_armed _ _)). }
  assert (Hx1 : exhausted_within (schedule w) (S t) (pred n) s1).
  { unfold s1. now apply queue_get_exhausted, observe_exhausted. }
  assert (Hl2 : load s2 <= load s1) by apply readers_run_load.
  assert (Ha2 : armed s2) by now apply (proj1 (readers_run_armed _ _)).
  assert (Hx2 : exhausted_within (schedule w) (S (S t)) (pred (pred n)) s2).
  { unfold s2. replace (t + 1) with (S t) by lia.
    now apply observe_exhausted. }
  destruct (queue_get s2) as [[e|] s2'] eqn:E2.
  - (* an event came: go round again *)
    destruct (queue_get_some _ _ _ E2) as (Hl & Ha' & Hr).
    destruct (IH (pred (pred n) + load s2')) with
      (t := t + 2) (n := pred (pred n)) (s := s2') as (fuel & r & Hd).
    + lia.
    + lia.
    + now apply Ha'.
    + intros b. rewrite Hr. replace (t + 2) with (S (S t)) by lia.
      apply Hx2.
    + exists (S fuel). rewrite drain_step. fold s1. cbn zeta. fold s2.
      rewrite E2. cbn [fst snd]. rewrite Hd.
      destruct r as [ys s']. now eexists.
  - (* queue.Empty *)
    apply queue_get_none in E2 as E2'. subst s2'.
    pose (s3 := observe w (t + 2) s2).
    destruct (done s3) eqn:Hd3.
    + exists 1. rewrite drain_step. fold s1. cbn zeta. fold s2.
      rewrite E2. cbn [fst snd]. fold s3. rewrite Hd3. now eexists.
    + assert (Ha3 : armed s3) by now apply (proj1 (readers_run_armed _ _)).
      assert (Hx3 : exhausted_within (schedule w) (S (S (S t)))
                                     (pred (pred (pred n))) s3).
      { unfold s3. replace (t + 2) with (S (S t)) by lia.
        now apply observe_exhausted. }
      assert (Hn : 1 <= pred (pred (pred n))).
      { destruct Ha3 as [Hd|[Hin|Hin]]; [congruence | |].
        - exact (exhausted_within_pending false _ _ _ Hx3 Hin).
        - exact (exhausted_within_pending true _ _ _ Hx3 Hin). }
      destruct (IH (pred (pred (pred n)) + load s3)) with
        (t := t + 3) (n := pred (pred (pred n))) (s := s3)
        as (fuel & r & Hd).
      * assert (load s3 <= load s2) by apply readers_run_load. lia.
      * lia.
      * exact Ha3.
      * replace (t + 3) with (S (S (S t))) by lia. exact Hx3.
      * exists (S fuel). rewrite drain_step. fold s1. cbn zeta. fold s2.
        rewrite E2. cbn [fst snd]. fold s3. rewrite Hd3, Hd.
        destruct r as [ys s']. now eexists.
Qed.

Lemma drain_terminates t s :
  fair (schedule w) -> armed s -> exists fuel r, drain w fuel t s = Some r.
Proof.
  intros Hf Ha.
  destruct (fair_exhausted_within t s Hf) as [n Hn].
  now apply (drain_terminates_within (n + load s) t n s).
Qed.

(** Without a done-signal, set or to come, the loop never ends. *)
Lemma drain_never_ends fuel : forall t s,
  ~ armed s -> drain w fuel t s = None.
Proof.
  induction fuel as [|fuel IH]; intros t s Hn; [reflexivity|].
  rewrite drain_step. cbn zeta.
  set (s1 := snd (queue_get (observe w t s))).
  assert (Hn1 : ~ armed s1).
  { unfold s1. intros H. apply Hn.
    apply (proj2 (queue_get_armed _)) in H.
    now apply (proj2 (readers_run_armed _ _)) in H. }
  set (s2 := observe w (t + 1) s1).
  assert (Hn2 : ~ armed s2).
  { intros H. apply Hn1. now apply (proj2 (readers_run_armed _ _)) in H. }
  destruct (queue_get s2) as [[e|] s2'] eqn:E2; cbn [fst snd].
  - rewrite IH; [reflexivity|].
    intros H. apply Hn2. now apply (queue_get_some _ _ _ E2).
  - set (s3 := observe w (t + 2) s2).
    assert (Hn3 : ~ armed s3).
    { intros H. apply Hn2. now apply (proj2 (readers_run_armed _ _)) in H. }
    destruct (done s3) eqn:Hd; [exfalso; apply Hn3; now left|].
    now rewrite IH.
Qed.

(** More fuel does not change a result. *)
Lemma drain_more_fuel fuel : forall fuel' t s r,
  fuel <= fuel' -> drain w fuel t s = Some r -> drain w fuel' t s = Some r.
Proof.
  induction fuel as [|fuel IH]; intros fuel' t s r Hle H; [discriminate|].
  destruct fuel' as [|fuel']; [lia|].
  rewrite drain_step in *. cbn zeta in *.
  destruct (fst (queue_get (observe w (t + 1)
                              (snd (queue_get (observe w t s)))))).
  - destruct (drain w fuel (t + 2) _) as [r2|] eqn:Hrec; [|discriminate].
    rewrite (IH fuel' _ _ r2); [exact H | lia | exact Hrec].
  - destruct (done _); [exact H|].
    destruct (drain w fuel (t + 3) _) as [r2|] eqn:Hrec; [|discriminate].
    rewrite (IH fuel' _ _ r2); [exact H | lia | exact Hrec].
Qed.

End DrainFacts.

Section PromptDelivery.
Context (w : world) {L : Language}.

Lemma readers_run_idle l : forall s,
  stdout_reader s = [] -> stderr_reader s = [] -> readers_run l s = s.
Proof.
  unfold readers_run. induction l as [|b l IH]; intros s Ho He; [reflexivity|].
  simpl. unfold reader_step. destruct b; rewrite ?Ho, ?He; now apply IH.
Qed.

Lemma grace_idle n : forall t s,
  stdout_reader s = [] -> stderr_reader s = [] -> output_queue s = [] ->
  grace w n t s = ([], s).
Proof.
  induction n as [|n IH]; intros t s Ho He Hq; [reflexivity|].
  cbn [grace]. unfold observe. rewrite (readers_run_idle _ s Ho He).
  unfold queue_get. rewrite Hq. now rewrite (IH (S t) s Ho He Hq).
Qed.

(** Once the readers are through and the done-signal is set, the loop
    yields what is in the queue and ends. *)
Lemma drain_flushes n : forall q s t,
  length q <= n ->
  output_queue s = q ->
  stdout_reader s = [] -> stderr_reader s = [] -> done s = true ->
  drain w (S n) t s = Some (q, drained s).
Proof.
  induction n as [n IH] using lt_wf_ind.
  intros q s t Hlen Hq Ho He Hd.
  destruct s as [p e q0 d ro re k]. simpl in Hq, Ho, He, Hd. subst.
  rewrite drain_step. cbn zeta. unfold observe, drained.
  rewrite (readers_run_idle (schedule w t)) by reflexivity.
  destruct q as [|e1 [|e2 q]];
    unfold queue_get;
    cbn [output_queue with_output_queue fst snd done process env_vars
         stdout_reader stderr_reader popen_calls];
    rewrite ?(readers_run_idle (schedule w (t + 1))) by reflexivity;
    cbn [output_queue with_output_queue fst snd done process env_vars
         stdout_reader stderr_reader popen_calls];
    rewrite ?(readers_run_idle (schedule w (t + 2))) by reflexivity;
    cbn [output_queue with_output_queue fst snd done process env_vars
         stdout_reader stderr_reader popen_calls].
  - now rewrite grace_idle.
  - now rewrite grace_idle.
  - destruct n as [|n]; [simpl in Hlen; lia|].
    change (with_output_queue q
              (with_output_queue (e2 :: q)
                 (Session p e (e1 :: e2 :: q) true [] [] k)))
      with (Session p e q true [] [] k).
    rewrite (IH n (Nat.lt_succ_diag_r n) q (Session p e q true [] [] k) (t + 2));
      [reflexivity | simpl in Hlen; lia | reflexivity | reflexivity
       | reflexivity | reflexivity].
Qed.

Lemma existsb_setdone_In acts :
  In SetDone acts ->
  existsb (fun a => match a with SetDone => true | Put _ => false end) acts
  = true.
Proof.
  intros H. apply existsb_exists. exists SetDone. now split.
Qed.

(** What the stdout reader does in one go when stderr is silent. *)
Lemma readers_run_stdout l : forall s,
  stderr_reader s = [] ->
  length (stdout_reader s) <= count_occ Bool.bool_dec l false ->
  readers_run l s
  = Session (process s) (env_vars s)
            (output_queue s ++ puts (stdout_reader s))%list
            (done s
             || existsb (fun a => match a with SetDone => true | Put _ => false end)
                        (stdout_reader s))
            [] [] (popen_calls s).
Proof.
  unfold readers_run. induction l as [|b l IH]; intros s He Hlen.
  - simpl in *. destruct (stdout_reader s) eqn:Ho; [|simpl in Hlen; lia].
    destruct s; simpl in *. subst.
    now rewrite app_nil_r, orb_false_r.
  - cbn [fold_left]. destruct b.
    + unfold reader_step at 2. rewrite He. apply IH; [exact He|].
      simpl in Hlen. exact Hlen.
    + unfold reader_step at 2.
      destruct (stdout_reader s) as [|a r] eqn:Ho.
      * rewrite IH; [| exact He | rewrite Ho; simpl; lia].
        now rewrite Ho.
      * cbn [count_occ] in Hlen.
        destruct (Bool.bool_dec false false) as [_|Hn]; [|congruence].
        rewrite IH.
        -- destruct a as [e|]; destruct s; simpl in *; subst; simpl.
           ++ now rewrite <- app_assoc.
           ++ now rewrite orb_true_r.
        -- destruct a; destruct s; simpl in *; exact He.
        -- destruct a; destruct s; simpl in *; lia.
Qed.

(** When the stdout reader has put the whole answer on the queue and set
    the done-signal by the driver's first look, and stderr is silent, the
    loop yields what was waiting in the queue and then every event of the
    answer, in order. *)
Lemma drain_prompt s :
  stderr_reader s = [] ->
  length (stdout_reader s) <= count_occ Bool.bool_dec (schedule w 0) false ->
  In SetDone (stdout_reader s) ->
  exists fuel,
    drain w fuel 0 s
    = Some ((output_queue s ++ puts (stdout_reader s))%list, drained s).
Proof.
  intros He Hlen Hin.
  pose (s' := observe w 0 s).
  assert (Hs' : s' = Session (process s) (env_vars s)
                       (output_queue s ++ puts (stdout_reader s))%list
                       true [] [] (popen_calls s)).
  { unfold s', observe. rewrite (readers_run_stdout _ s He Hlen).
    now rewrite (existsb_setdone_In _ Hin), orb_true_r. }
  exists (S (length (output_queue s'))).
  assert (E : forall fuel, drain w (S fuel) 0 s = drain w (S fuel) 0 s').
  { intros fuel. rewrite !drain_step. cbn zeta. fold s'.
    assert (Hfix : observe w 0 s' = s').
    { unfold observe. apply readers_run_idle; rewrite Hs'; reflexivity. }
    now rewrite Hfix. }
  rewrite E.
  rewrite (drain_flushes _ (output_queue s') s' 0 (le_n _) eq_refl);
    try (rewrite Hs'; reflexivity).
Qed.

End PromptDelivery.

(** ** The execution driver: the whole call *)

Lemma round_robin_fair : fair Scenario.round_robin.
Proof.
  intros b t k. exists k. revert t.
  induction k as [|k IH]; intros t; simpl; [lia|].
  specialize (IH (S t)). destruct b; simpl; lia.
Qed.

Section RunFacts.
Context (w : world) {L : Language}.

Lemma handle_stream_output_done lines is_error_stream raw :
  In raw lines -> reaches_end raw ->
  In SetDone (handle_stream_output lines is_error_stream).
Proof.
  intros Hin (line & Hp & Ha & He).
  unfold handle_stream_output. apply in_flat_map.
  exists raw. split; [exact Hin|].
  rewrite (handle_line_end _ _ _ Hp Ha He).
  apply in_or_app. right. now left.
Qed.

Lemma stdin_write_ok data s s' :
  stdin_write data s = (Ok tt, s') ->
  exists p, process s = Some p /\ s' = accepted data p s.
Proof.
  intros H. unfold stdin_write, bind, on_process in H.
  destruct (process s) as [p|] eqn:Hp; [|discriminate].
  exists p. split; [reflexivity|].
  destruct (proc_stdin_write data p) as [[[]|tb] p'] eqn:E;
    [|discriminate].
  assert (Hf : fst (proc_stdin_write data p) = Ok tt) by now rewrite E.
  pose proof (stdin_write_accepts data s p Hp Hf) as H'.
  unfold stdin_write, bind, on_process in H'. rewrite Hp, E in H'.
  congruence.
Qed.

Lemma child_from_refl s : child_from w s s.
Proof. intros p Hp. left. now exists p. Qed.

Lemma child_from_trans s1 s2 s3 :
  child_from w s1 s2 -> child_from w s2 s3 -> child_from w s1 s3.
Proof.
  intros H12 H23 p3 Hp3.
  destruct (H23 p3 Hp3) as [(p2 & Hp2 & E)|H]; [|now right].
  rewrite E. apply (H12 p2 Hp2).
Qed.

Lemma stdin_write_child_from data s :
  child_from w s (snd (stdin_write data s)).
Proof.
  unfold stdin_write, bind, on_process.
  destruct (process s) as [p|] eqn:Hp;
    [|simpl; intros p' Hp'; simpl in Hp'; congruence].
  pose proof (proc_stdin_write_child data p) as Hc.
  destruct (proc_stdin_write data p) as [[[]|tb] p1]; simpl in *;
    intros p' [= <-]; left; now exists p.
Qed.

Lemma terminate_child_from s : child_from w s (snd (terminate s)).
Proof.
  pose proof (terminate_cases s) as H.
  destruct (process s) as [p|] eqn:Hp;
    [|rewrite H; apply child_from_refl].
  destruct (terminate_error (os_child p));
    [rewrite H; apply child_from_refl|].
  destruct (stdin_close_error (os_child p)) eqn:Ei.
  { rewrite H. simpl. intros p' [= <-]. left. exists p. split; [easy|].
    unfold proc_terminate. now destruct (terminate_error (os_child p)). }
  destruct (stdout_close_error (os_child p)) eqn:Eo.
  { rewrite H. simpl. intros p' [= <-]. left. exists p. split; [easy|].
    unfold proc_stdin_close, proc_terminate.
    destruct (terminate_error (os_child p)); simpl; now rewrite ?Ei. }
  rewrite H. simpl. intros p' [= <-]. left. now exists p.
Qed.

Lemma start_process_child_from s : child_from w s (snd (start_process w s)).
Proof.
  rewrite start_process_eq.
  assert (H : child_from w s
                (snd (match process s with
                      | Some _ => terminate s
                      | None => (Ok tt, s)
                      end))).
  { destruct (process s); [apply terminate_child_from | apply child_from_refl]. }
  destruct (match process s with Some _ => terminate s | None => (Ok tt, s) end)
    as [[[]|tb] s1]; simpl in *; [|exact H].
  unfold spawn. simpl.
  destruct (popen w (popen_calls s1) start_cmd (child_env w)) as [c|tb] eqn:E;
    simpl.
  - intros p' [= <-]. right. simpl. eauto.
  - intros p' Hp'. apply (H p' Hp').
Qed.

Lemma update_subprocess_env_child_from e s :
  child_from w s (snd (update_subprocess_env e s)).
Proof.
  unfold update_subprocess_env.
  destruct (value_eqb name (VStr "Shell")); [|apply child_from_refl].
  unfold bind.
  pose proof (stdin_write_child_from
                (env_code export_format (env_vars s) e ++ nl) s) as H.
  destruct (stdin_write (env_code export_format (env_vars s) e ++ nl) s)
    as [[[]|tb] s1]; exact H.
Qed.

Lemma run_setup_ok code s code' s1 :
  run_setup w code s = (Ok code', s1) ->
  preprocess_code code = Ok code' /\ child_from w s s1
  /\ exists p, process s1 = Some p.
Proof.
  unfold run_setup, bind, lift, ret. intros H.
  destruct (preprocess_code code) as [c|tb]; [|discriminate].
  destruct (process s) as [p|] eqn:Hp.
  - destruct (negb false && negb (PyDict.eqb (env_vars s)
                                    (PyDict.copy (os_environ w)))).
    + pose proof (update_subprocess_env_child_from
                    (PyDict.copy (os_environ w)) s) as Hc.
      unfold update_subprocess_env in *.
      destruct (value_eqb name (VStr "Shell")).
      * unfold bind in *.
        destruct (stdin_write _ s) as [[[]|tb] s0] eqn:Ew;
          [|discriminate].
        injection H as <- <-. simpl in Hc.
        apply stdin_write_ok in Ew as (p0 & _ & ->).
        repeat split; [exact Hc | eexists; reflexivity].
      * injection H as <- <-. repeat split; [exact Hc | now exists p].
    + injection H as <- <-.
      repeat split; [apply child_from_refl | now exists p].
  - pose proof (start_process_child_from s) as Hc.
    assert (Hsome : forall s0, start_process w s = (Ok tt, s0) ->
                               exists p, process s0 = Some p).
    { intros s0 E. rewrite start_process_eq, Hp in E. unfold spawn in E.
      simpl in E.
      destruct (popen w (popen_calls s) start_cmd (child_env w));
        [|discriminate].
      injection E as <-. eexists. reflexivity. }
    destruct (start_process w s) as [[[]|tb] s0]; [|discriminate].
    simpl in H. injection H as <- <-.
    repeat split; [exact Hc | now apply Hsome].
Qed.

Section Echo.
Variable data : string.
Hypothesis world_echoes :
  forall n cmd e c, popen w n cmd e = Ok c -> echoes_marker c data.

Lemma child_from_echoes s s' :
  child_from w s s' -> session_echoes data s -> session_echoes data s'.
Proof.
  intros Hc Hs p' Hp'.
  destruct (Hc p' Hp') as [(p & Hp & ->)|(n & cmd & e & H)].
  - now apply Hs.
  - now apply (world_echoes n cmd e).
Qed.

Lemma accepted_armed p s :
  echoes_marker (os_child p) data -> armed (accepted data p s).
Proof.
  intros (raw & Hin & Hr). right. left. simpl.
  apply in_or_app. right.
  now apply handle_stream_output_done with raw.
Qed.

End Echo.

End RunFacts.

Section Termination.
Context (w : world) {L : Language}.

(** When the loop is left with the code written, the done-signal is on
    its way. *)
Lemma write_loop_break_armed code fuel : forall retry_count s ys s2,
  (forall n cmd e c, popen w n cmd e = Ok c -> echoes_marker c (code ++ nl)) ->
  retry_count <= max_retries ->
  session_echoes (code ++ nl) s ->
  write_loop w fuel code retry_count s = Some (ys, Break, s2) ->
  armed s2.
Proof.
  induction fuel as [|fuel IH]; intros rc s ys s2 Hw Hrc Hs H;
    [discriminate|].
  cbn [write_loop] in H.
  rewrite (proj2 (Nat.leb_le _ _) Hrc) in H.
  pose proof (stdin_write_child_from w (code ++ nl) (with_done false s)) as Hc.
  destruct (stdin_write (code ++ nl) (with_done false s))
    as [[[]|tb] s1] eqn:E.
  - injection H as <- <-.
    apply stdin_write_ok in E as (p & Hp & ->).
    apply (accepted_armed (code ++ nl)). now apply Hs.
  - pose proof (start_process_child_from w s1) as Hc'.
    destruct (start_process w s1) as [[[]|tb'] s3]; [|discriminate].
    destruct (max_retries <? rc + 1)%nat eqn:Hlt; [discriminate|].
    apply Nat.ltb_ge in Hlt.
    destruct (write_loop w fuel code (rc + 1) s3)
      as [[[zs e] s4]|] eqn:Hrec; [|discriminate].
    injection H as <- -> <-.
    apply (IH (rc + 1) s3 zs s4 Hw Hlt); [|exact Hrec].
    apply (child_from_echoes w (code ++ nl) Hw s1 s3 Hc').
    apply (child_from_echoes w (code ++ nl) Hw (with_done false s) s1 Hc).
    exact Hs.
Qed.

(** C2 (amended).  [run(code)] ends, whatever the session it is called
    on, when
    - the readers are scheduled fairly, so that the finitely many lines
      delivered on the streams are eventually read, and
    - every process that can receive the code (the one the session
      holds, or one launched by a start or a restart) answers it on
      stdout with a line that the postprocessor keeps, that
      [detect_active_line] does not match and on which
      [detect_end_of_execution] holds. *)
Theorem run_terminates (code : string) (s : session) :
  fair (schedule w) ->
  (forall code', preprocess_code code = Ok code' ->
     session_echoes (code' ++ nl) s
     /\ forall n cmd e c,
          popen w n cmd e = Ok c -> echoes_marker c (code' ++ nl)) ->
  exists fuel ys o s', run w fuel code s = Some (ys, o, s').
Proof.
  intros Hfair Hecho. unfold run.
  destruct (run_setup w code s) as [[code'|tb] s1] eqn:Hsetup;
    [|exists 0; now do 3 eexists].
  apply run_setup_ok in Hsetup as (Hpre & Hfrom & _).
  destruct (Hecho code' Hpre) as [Hs Hw].
  destruct (write_loop_total w 4 code' 0 s1) as [[[ys e] s2] Hloop];
    [unfold max_retries; lia | unfold max_retries; lia |].
  destruct e as [| |tb].
  - assert (Ha : armed s2).
    { apply (write_loop_break_armed code' 4 0 s1 ys s2 Hw);
        [unfold max_retries; lia | | exact Hloop].
      now apply (child_from_echoes w (code' ++ nl) Hw s s1). }
    destruct (drain_terminates w 0 s2 Hfair Ha) as (fuel & [zs s3] & Hd).
    exists (Nat.max 4 fuel).
    rewrite (write_loop_more_fuel w 4 (Nat.max 4 fuel) _ _ _ _
               (Nat.le_max_l _ _) Hloop).
    rewrite (drain_more_fuel w fuel (Nat.max 4 fuel) _ _ _
               (Nat.le_max_r _ _) Hd).
    now do 3 eexists.
  - exists 4. rewrite Hloop. now do 3 eexists.
  - exists 4. rewrite Hloop. now do 3 eexists.
Qed.

End Termination.

Lemma echo_child_echoes data :
  data <> nl -> @echoes_marker Markers.Shell Scenario.echo_child data.
Proof.
  intros H. exists ("##end_of_execution##" ++ nl). split.
  - simpl. apply String.eqb_neq in H. rewrite H. right. now left.
  - exists ("##end_of_execution##" ++ nl). repeat split.
Qed.

Lemma run_terminates_witness :
  exists fuel ys o s',
    @run (Scenario.world_of [Scenario.echo_child]) Markers.Shell
         fuel "echo hello" init
    = Some (ys, o, s').
Proof.
  apply (@run_terminates (Scenario.world_of [Scenario.echo_child])
           Markers.Shell "echo hello" init round_robin_fair).
  intros code' [= <-]. split.
  - intros p Hp. discriminate.
  - intros n cmd e c Hc. simpl in Hc.
    destruct n as [|[|n]]; simpl in Hc; try discriminate.
    injection Hc as <-. apply echo_child_echoes. discriminate.
Defined.

Lemma one_line_setup :
  @run_setup (Scenario.world_of [Scenario.one_line_child]) Markers.Shell
             "true" init
  = (Ok ("true" ++ nl ++ "echo ##end_of_execution##"),
     respawned (L := Markers.Shell)
               (Scenario.world_of [Scenario.one_line_child])
               Scenario.one_line_child init).
Proof. vm_compute. reflexivity. Qed.

Lemma one_line_not_armed :
  ~ armed (accepted (L := Markers.Shell)
             (("true" ++ nl ++ "echo ##end_of_execution##") ++ nl)
             (new_process ["sh"]
                (child_env (Scenario.world_of [Scenario.one_line_child]))
                Scenario.one_line_child)
             (with_done false
                (respawned (L := Markers.Shell)
                   (Scenario.world_of [Scenario.one_line_child])
                   Scenario.one_line_child init))).
Proof.
  intros H. vm_compute in H.
  destruct H as [H|[[H|[H|H]]|H]]; try discriminate; exact H.
Qed.

(** The claim C2 as it stands fails: the stream delivers a line on which
    [detect_end_of_execution] holds, the readers get their turns, and the
    call never ends, because the line is also matched by
    [detect_active_line] and the done-signal is never set. *)
Lemma run_terminates_counterexample :
  In ("##active_line1####end_of_execution##" ++ nl)
     (stdout_lines Scenario.one_line_child
                   ("true" ++ nl ++ "echo ##end_of_execution##" ++ nl))
  /\ truthy (@detect_end_of_execution Markers.Shell
               ("##active_line1####end_of_execution##" ++ nl)) = true
  /\ fair (schedule (Scenario.world_of [Scenario.one_line_child]))
  /\ forall fuel,
       @run (Scenario.world_of [Scenario.one_line_child]) Markers.Shell
            fuel "true" init
       = None.
Proof.
  split; [now left|].
  split; [vm_compute; reflexivity|].
  split; [exact round_robin_fair|].
  intros fuel. unfold run. rewrite one_line_setup.
  destruct fuel as [|fuel]; [reflexivity|].
  rewrite (write_loop_accepts
             (Scenario.world_of [Scenario.one_line_child]) fuel _ 0 _
             (new_process ["sh"]
                (child_env (Scenario.world_of [Scenario.one_line_child]))
                Scenario.one_line_child));
    [| unfold max_retries; lia | reflexivity | vm_compute; reflexivity].
  now rewrite (drain_never_ends _ _ _ _ one_line_not_armed).
Qed.

(** ** The execution driver: nothing is lost *)

Section DrainOrder.
Context (w : world) {L : Language}.

Lemma reader_step_backlog s b :
  stderr_reader s = [] ->
  backlog (reader_step s b) = backlog s /\ stderr_reader (reader_step s b) = [].
Proof.
  intros He. unfold reader_step, backlog.
  destruct b; rewrite ?He; [now split|].
  destruct (stdout_reader s) as [|[e|] r] eqn:Ho; simpl; rewrite ?Ho;
    split; try assumption; try reflexivity.
  now rewrite <- app_assoc.
Qed.

Lemma readers_run_backlog l : forall s,
  stderr_reader s = [] ->
  backlog (readers_run l s) = backlog s /\ stderr_reader (readers_run l s) = [].
Proof.
  unfold readers_run. induction l as [|b l IH]; intros s He; [now split|].
  simpl. destruct (reader_step_backlog s b He) as [Hb He'].
  destruct (IH _ He') as [Hb' He'']. split; [congruence | exact He''].
Qed.

Lemma queue_get_backlog s :
  (yielded (fst (queue_get s)) ++ backlog (snd (queue_get s)))%list = backlog s
  /\ stderr_reader (snd (queue_get s)) = stderr_reader s.
Proof.
  unfold queue_get, backlog.
  destruct (output_queue s) as [|e q] eqn:E; simpl; rewrite ?E; now split.
Qed.

Lemma grace_backlog n : forall t s,
  stderr_reader s = [] ->
  (fst (grace w n t s) ++ backlog (snd (grace w n t s)))%list = backlog s
  /\ stderr_reader (snd (grace w n t s)) = [].
Proof.
  induction n as [|n IH]; intros t s He; [now split|].
  cbn [grace].
  destruct (readers_run_backlog (schedule w t) s He) as [Hb He1].
  fold (observe w t s) in Hb, He1.
  destruct (queue_get_backlog (observe w t s)) as [Hq He2].
  destruct (queue_get (observe w t s)) as [o s1]. cbn [fst snd] in *.
  rewrite He1 in He2.
  destruct (IH (S t) s1 He2) as [Hg He3].
  destruct (grace w n (S t) s1) as [ys s2]. cbn [fst snd] in *.
  split; [|exact He3].
  rewrite <- app_assoc, Hg, Hq. exact Hb.
Qed.

(** With a silent stderr, what the loop yields and what it leaves make up
    what there was, in the same order. *)
Lemma drain_backlog fuel : forall t s zs s',
  stderr_reader s = [] ->
  drain w fuel t s = Some (zs, s') ->
  (zs ++ backlog s')%list = backlog s.
Proof.
  induction fuel as [|fuel IH]; intros t s zs s' He H; [discriminate|].
  rewrite drain_step in H. cbn zeta in H.
  set (g3 := grace w 3 (t + 3)) in H.
  destruct (readers_run_backlog (schedule w t) s He) as [Hb0 He0].
  fold (observe w t s) in Hb0, He0.
  destruct (queue_get_backlog (observe w t s)) as [Hq1 He1].
  rewrite He0 in He1.
  set (o1 := fst (queue_get (observe w t s))) in *.
  set (s1 := snd (queue_get (observe w t s))) in *.
  destruct (readers_run_backlog (schedule w (t + 1)) s1 He1) as [Hb2 He2].
  fold (observe w (t + 1) s1) in Hb2, He2.
  set (s2 := observe w (t + 1) s1) in *.
  destruct (queue_get_backlog s2) as [Hq2 He2'].
  rewrite He2 in He2'.
  destruct (queue_get s2) as [[e|] s2'] eqn:E2; cbn [fst snd yielded] in *.
  - destruct (drain w fuel (t + 2) s2') as [[ys s3]|] eqn:Hrec;
      [|discriminate].
    injection H as <- <-.
    pose proof (IH _ _ _ _ He2' Hrec) as Hr.
    rewrite <- app_assoc. simpl. rewrite Hr.
    simpl in Hq2. rewrite Hq2, Hb2, Hq1. exact Hb0.
  - apply queue_get_none in E2. subst s2'.
    destruct (readers_run_backlog (schedule w (t + 2)) s2 He2) as [Hb3 He3].
    fold (observe w (t + 2) s2) in Hb3, He3.
    destruct (done (observe w (t + 2) s2)) eqn:Hd.
    + injection H as <- <-. subst g3.
      destruct (grace_backlog 3 (t + 3) _ He3) as [Hg _].
      rewrite <- app_assoc, Hg, Hb3, Hb2, Hq1. exact Hb0.
    + destruct (drain w fuel (t + 3) (observe w (t + 2) s2))
        as [[ys s3]|] eqn:Hrec; [|discriminate].
      injection H as <- <-.
      pose proof (IH _ _ _ _ He3 Hrec) as Hr.
      rewrite <- app_assoc, Hr, Hb3, Hb2, Hq1. exact Hb0.
Qed.

Lemma reader_step_pool s b : Permutation (pool (reader_step s b)) (pool s).
Proof.
  unfold reader_step, pool.
  destruct b.
  - destruct (stderr_reader s) as [|[e|] r] eqn:E; simpl; rewrite ?E;
      try reflexivity.
    rewrite <- app_assoc. apply Permutation_app_head.
    simpl. apply Permutation_middle.
  - destruct (stdout_reader s) as [|[e|] r] eqn:E; simpl; rewrite ?E;
      try reflexivity.
    now rewrite <- app_assoc.
Qed.

Lemma readers_run_pool l : forall s,
  Permutation (pool (readers_run l s)) (pool s).
Proof.
  unfold readers_run. induction l as [|b l IH]; intros s; simpl;
    [reflexivity|].
  etransitivity; [apply IH | apply reader_step_pool].
Qed.

Lemma queue_get_pool s :
  (yielded (fst (queue_get s)) ++ pool (snd (queue_get s)))%list = pool s.
Proof.
  unfold queue_get, pool.
  destruct (output_queue s) as [|e q] eqn:E; simpl; now rewrite ?E.
Qed.

Lemma grace_pool n : forall t s,
  Permutation (fst (grace w n t s) ++ pool (snd (grace w n t s))) (pool s).
Proof.
  induction n as [|n IH]; intros t s; [reflexivity|].
  cbn [grace].
  pose proof (readers_run_pool (schedule w t) s) as Hb.
  fold (observe w t s) in Hb.
  pose proof (queue_get_pool (observe w t s)) as Hq.
  destruct (queue_get (observe w t s)) as [o s1]. cbn [fst snd] in *.
  pose proof (IH (S t) s1) as Hg.
  destruct (grace w n (S t) s1) as [ys s2]. cbn [fst snd] in *.
  rewrite <- app_assoc. rewrite <- Hb, <- Hq.
  now apply Permutation_app_head.
Qed.

(** With both streams at work, what the loop yields and what it leaves
    make up what there was, up to the order. *)
Lemma drain_pool fuel : forall t s zs s',
  drain w fuel t s = Some (zs, s') ->
  Permutation (zs ++ pool s') (pool s).
Proof.
  induction fuel as [|fuel IH]; intros t s zs s' H; [discriminate|].
  rewrite drain_step in H. cbn zeta in H.
  set (g3 := grace w 3 (t + 3)) in H.
  pose proof (readers_run_pool (schedule w t) s) as Hb0.
  fold (observe w t s) in Hb0.
  pose proof (queue_get_pool (observe w t s)) as Hq1.
  set (o1 := fst (queue_get (observe w t s))) in *.
  set (s1 := snd (queue_get (observe w t s))) in *.
  pose proof (readers_run_pool (schedule w (t + 1)) s1) as Hb2.
  fold (observe w (t + 1) s1) in Hb2.
  set (s2 := observe w (t + 1) s1) in *.
  pose proof (queue_get_pool s2) as Hq2.
  assert (Hs1 : Permutation (yielded o1 ++ pool s2) (pool s)).
  { rewrite <- Hb0, <- Hq1. now apply Permutation_app_head. }
  destruct (queue_get s2) as [[e|] s2'] eqn:E2; cbn [fst snd yielded] in *.
  - destruct (drain w fuel (t + 2) s2') as [[ys s3]|] eqn:Hrec;
      [|discriminate].
    injection H as <- <-.
    pose proof (IH _ _ _ _ Hrec) as Hr.
    rewrite <- Hs1, <- Hq2, <- app_assoc.
    apply Permutation_app_head. simpl. now apply perm_skip.
  - apply queue_get_none in E2. subst s2'.
    pose proof (readers_run_pool (schedule w (t + 2)) s2) as Hb3.
    fold (observe w (t + 2) s2) in Hb3.
    destruct (done (observe w (t + 2) s2)) eqn:Hd.
    + injection H as <- <-. subst g3.
      pose proof (grace_pool 3 (t + 3) (observe w (t + 2) s2)) as Hg.
      rewrite <- Hs1, <- app_assoc. apply Permutation_app_head.
      now rewrite Hg.
    + destruct (drain w fuel (t + 3) (observe w (t + 2) s2))
        as [[ys s3]|] eqn:Hrec; [|discriminate].
      injection H as <- <-.
      pose proof (IH _ _ _ _ Hrec) as Hr.
      rewrite <- Hs1, <- app_assoc. apply Permutation_app_head.
      now rewrite Hr.
Qed.

End DrainOrder.

(** ** Retries *)

Section RetryScenarios.
Context (w : world) {L : Language}.

Lemma new_process_write_raises c data tb :
  write_error c 0 data = Some tb ->
  fst (proc_stdin_write data (new_process start_cmd (child_env w) c))
  = Raise tb.
Proof. intros H. unfold proc_stdin_write. simpl. now rewrite H. Qed.

Lemma new_process_write_accepts c data :
  write_error c 0 data = None ->
  fst (proc_stdin_write data (new_process start_cmd (child_env w) c))
  = Ok tt.
Proof. intros H. unfold proc_stdin_write. simpl. now rewrite H. Qed.

(** C1 (amended).  After a successful setup that leaves the session [s1]
    with the process [p0] and the code [code']:
    - whatever happens, the write loop restarts the process at most four
      times, and at most three times when it ends with the code written
      (the code is written while the retry counter is at most 3);
    - if the write fails on the first process and on the one launched by
      the first restart, and succeeds on the one launched by the second,
      the two restarts themselves succeeding, the process has been
      restarted exactly twice (the session [s3]) and the call goes on to
      the drain loop: it yields the diagnostic of the second failure and
      then events that were waiting or that the third process's output
      gives.  None is lost or repeated: an event the call has not yielded
      when it returns is still in the queue or with a reader; the order is
      kept when stderr is silent; all of them are yielded when the answer
      is on the queue by the driver's first look.  The call returns when
      that output holds the end-of-execution marker and the readers get
      their turns;
    - if the write fails four times in a row, the four restarts
      succeeding, the call yields the three diagnostics and the event
      [Maximum retries reached...] as its last event, and returns. *)
Theorem run_write_retry (code code' : string) (s s1 : session) (p0 : Popen) :
  run_setup w code s = (Ok code', s1) ->
  process s1 = Some p0 ->
  (forall fuel ys e s',
      write_loop w fuel code' 0 s1 = Some (ys, e, s') ->
      popen_calls s' <= popen_calls s1 + 4
      /\ (e = Break -> popen_calls s' <= popen_calls s1 + 3))
  /\ (forall tb1 c1 tb2 c2,
        fst (proc_stdin_write (code' ++ nl) p0) = Raise tb1 ->
        can_shut_down (os_child p0) ->
        popen w (popen_calls s1) start_cmd (child_env w) = Ok c1 ->
        write_error c1 0 (code' ++ nl) = Some tb2 ->
        can_shut_down c1 ->
        popen w (S (popen_calls s1)) start_cmd (child_env w) = Ok c2 ->
        write_error c2 0 (code' ++ nl) = None ->
        let s3 :=
          Session
            (Some (MkPopen start_cmd (child_env w) c2 [code' ++ nl] 1
                           false false false))
            (child_env w) (output_queue s1) false
            (handle_stream_output (stdout_lines c2 (code' ++ nl)) false)
            (stderr_reader s1
             ++ handle_stream_output (stderr_lines c2 (code' ++ nl)) true)%list
            (popen_calls s1 + 2) in
        (forall fuel, 3 <= fuel ->
           write_loop w fuel code' 0 s1 = Some ([retry_event tb2 1], Break, s3)
           /\ run w fuel code s
              = match drain w fuel 0 s3 with
                | Some (zs, s') => Some (retry_event tb2 1 :: zs, Returned, s')
                | None => None
                end)
        /\ (forall fuel ys o s', 3 <= fuel ->
              run w fuel code s = Some (ys, o, s') ->
              o = Returned
              /\ exists zs,
                   ys = retry_event tb2 1 :: zs
                   /\ Permutation (zs ++ pool s') (pool s3)
                   /\ (stderr_reader s1 = [] ->
                       stderr_lines c2 (code' ++ nl) = [] ->
                       (zs ++ backlog s')%list = backlog s3))
        /\ (fair (schedule w) -> echoes_marker c2 (code' ++ nl) ->
            exists fuel zs s',
              run w fuel code s = Some (retry_event tb2 1 :: zs, Returned, s'))
        /\ (stderr_reader s1 = [] -> stderr_lines c2 (code' ++ nl) = [] ->
            length (handle_stream_output (stdout_lines c2 (code' ++ nl)) false)
            <= count_occ Bool.bool_dec (schedule w 0) false ->
            echoes_marker c2 (code' ++ nl) ->
            exists fuel,
              run w fuel code s
              = Some (retry_event tb2 1
                        :: (output_queue s1
                            ++ puts (handle_stream_output
                                       (stdout_lines c2 (code' ++ nl)) false))%list,
                      Returned, drained s3)))
  /\ (forall tb1 c1 tb2 c2 tb3 c3 tb4 c4,
        fst (proc_stdin_write (code' ++ nl) p0) = Raise tb1 ->
        can_shut_down (os_child p0) ->
        popen w (popen_calls s1) start_cmd (child_env w) = Ok c1 ->
        write_error c1 0 (code' ++ nl) = Some tb2 ->
        can_shut_down c1 ->
        popen w (1 + popen_calls s1) start_cmd (child_env w) = Ok c2 ->
        write_error c2 0 (code' ++ nl) = Some tb3 ->
        can_shut_down c2 ->
        popen w (2 + popen_calls s1) start_cmd (child_env w) = Ok c3 ->
        write_error c3 0 (code' ++ nl) = Some tb4 ->
        can_shut_down c3 ->
        popen w (3 + popen_calls s1) start_cmd (child_env w) = Ok c4 ->
        forall fuel, 4 <= fuel ->
          exists s',
            run w fuel code s
            = Some ([retry_event tb2 1; retry_event tb3 2; retry_event tb4 3;
                     max_retries_event], Returned, s')
            /\ popen_calls s' = popen_calls s1 + 4
            /\ process s' = Some (new_process start_cmd (child_env w) c4)).
Proof.
  intros Hsetup Hp0. split; [|split].
  - intros fuel ys e s' H.
    destruct (write_loop_restarts w fuel code' 0 s1 ys e s'
                (Nat.le_0_l _) H) as [H1 H2].
    unfold max_retries in *. split; [lia|]. intros He.
    specialize (H2 He). lia.
  - intros tb1 c1 tb2 c2 Hw1 Hd0 Hc1 Hw2 Hd1 Hc2 Hw3 s3.
    assert (Hloop : forall fuel, 3 <= fuel ->
              write_loop w fuel code' 0 s1
              = Some ([retry_event tb2 1], Break, s3)).
    { intros fuel Hfuel. destruct fuel as [|[|[|fuel]]]; try lia.
      rewrite (write_loop_retry w _ code' 0 s1 p0 tb1 c1);
        [| unfold max_retries; lia | exact Hp0 | exact Hw1 | exact Hd0
         | exact Hc1].
      cbn [Nat.eqb max_retries].
      rewrite (write_loop_retry w _ code' 1 _
                 (new_process start_cmd (child_env w) c1) tb2 c2);
        [| unfold max_retries; lia | reflexivity
         | now apply new_process_write_raises | exact Hd1 | exact Hc2].
      cbn [Nat.eqb max_retries].
      rewrite (write_loop_accepts w _ code' 2 _
                 (new_process start_cmd (child_env w) c2));
        [| unfold max_retries; lia | reflexivity
         | now apply new_process_write_accepts].
      unfold s3, accepted, respawned. simpl.
      replace (popen_calls s1 + 2) with (S (S (popen_calls s1))) by lia.
      reflexivity. }
    assert (Hrun : forall fuel, 3 <= fuel ->
              run w fuel code s
              = match drain w fuel 0 s3 with
                | Some (zs, s') => Some (retry_event tb2 1 :: zs, Returned, s')
                | None => None
                end).
    { intros fuel Hfuel. unfold run. rewrite Hsetup, (Hloop fuel Hfuel).
      destruct (drain w fuel 0 s3) as [[zs s']|]; reflexivity. }
    split; [intros fuel Hfuel; split; [now apply Hloop | now apply Hrun]|].
    split; [|split].
    + intros fuel ys o s' Hfuel H.
      rewrite (Hrun fuel Hfuel) in H.
      destruct (drain w fuel 0 s3) as [[zs s'']|] eqn:Hd; [|discriminate].
      injection H as <- <- <-.
      split; [reflexivity|]. exists zs. split; [reflexivity|]. split.
      * exact (drain_pool w fuel 0 s3 zs s'' Hd).
      * intros He1 He2.
        apply (drain_backlog w fuel 0 s3 zs s''); [|exact Hd].
        unfold s3. simpl. now rewrite He1, He2.
    + intros Hfair (raw & Hin & Hraw).
      assert (Ha : armed s3).
      { right. left. simpl. now apply handle_stream_output_done with raw. }
      destruct (drain_terminates w 0 s3 Hfair Ha) as (fuel & [zs s'] & Hd).
      exists (Nat.max 3 fuel), zs, s'.
      rewrite (Hrun _ (Nat.le_max_l _ _)).
      now rewrite (drain_more_fuel w fuel (Nat.max 3 fuel) _ _ _
                     (Nat.le_max_r _ _) Hd).
    + intros He1 He2 Hlen (raw & Hin & Hraw).
      destruct (drain_prompt w s3) as [fuel Hd].
      * unfold s3. simpl. now rewrite He1, He2.
      * exact Hlen.
      * simpl. now apply handle_stream_output_done with raw.
      * exists (Nat.max 3 fuel).
        rewrite (Hrun _ (Nat.le_max_l _ _)).
        now rewrite (drain_more_fuel w fuel (Nat.max 3 fuel) _ _ _
                       (Nat.le_max_r _ _) Hd).
  - intros tb1 c1 tb2 c2 tb3 c3 tb4 c4
           Hw1 Hd0 Hc1 Hw2 Hd1 Hc2 Hw3 Hd2 Hc3 Hw4 Hd3 Hc4 fuel Hfuel.
    destruct fuel as [|[|[|[|fuel]]]]; try lia.
    eexists. split; [|split].
    + unfold run. rewrite Hsetup.
      rewrite (write_loop_retry w _ code' 0 s1 p0 tb1 c1);
        [| unfold max_retries; lia | exact Hp0 | exact Hw1 | exact Hd0
         | exact Hc1].
      cbn [Nat.eqb max_retries].
      rewrite (write_loop_retry w _ code' 1 _
                 (new_process start_cmd (child_env w) c1) tb2 c2);
        [| unfold max_retries; lia | reflexivity
         | now apply new_process_write_raises | exact Hd1 | exact Hc2].
      cbn [Nat.eqb max_retries].
      rewrite (write_loop_retry w _ code' 2 _
                 (new_process start_cmd (child_env w) c2) tb3 c3);
        [| unfold max_retries; lia | reflexivity
         | now apply new_process_write_raises | exact Hd2 | exact Hc3].
      cbn [Nat.eqb max_retries].
      rewrite (write_loop_retry w _ code' 3 _
                 (new_process start_cmd (child_env w) c3) tb4 c4);
        [| unfold max_retries; lia | reflexivity
         | now apply new_process_write_raises | exact Hd3 | exact Hc4].
      cbn [Nat.eqb max_retries]. simpl. reflexivity.
    + simpl. lia.
    + reflexivity.
Qed.

End RetryScenarios.

Lemma broken_setup children :
  @run_setup (Scenario.world_of (Scenario.broken_child :: children))
             Markers.Shell "echo hello" init
  = (Ok ("echo hello" ++ nl ++ "echo ##end_of_execution##"),
     respawned (L := Markers.Shell)
               (Scenario.world_of (Scenario.broken_child :: children))
               Scenario.broken_child init).
Proof. reflexivity. Qed.

Lemma broken_setup_with sched children :
  @run_setup (Scenario.world_with sched (Scenario.broken_child :: children))
             Markers.Shell "echo hello" init
  = (Ok ("echo hello" ++ nl ++ "echo ##end_of_execution##"),
     respawned (L := Markers.Shell)
               (Scenario.world_with sched (Scenario.broken_child :: children))
               Scenario.broken_child init).
Proof. reflexivity. Qed.

Lemma eager_reads_echo :
  length (@handle_stream_output Markers.Shell
            (stdout_lines Scenario.echo_child
               (("echo hello" ++ nl ++ "echo ##end_of_execution##") ++ nl))
            false)
  <= count_occ Bool.bool_dec (Scenario.eager 0) false.
Proof. vm_compute. repeat constructor. Qed.

Lemma echo_answers_hello :
  @echoes_marker Markers.Shell Scenario.echo_child
    (("echo hello" ++ nl ++ "echo ##end_of_execution##") ++ nl).
Proof. apply echo_child_echoes. discriminate. Qed.

Lemma late_fair : fair Scenario.late.
Proof.
  intros b t k. exists (k + 2).
  assert (H : forall n t, 2 <= t -> n <= steps Scenario.late b t n).
  { induction n as [|n IH]; intros t0 Ht; simpl; [lia|].
    specialize (IH (S t0)). unfold Scenario.late at 1.
    replace (t0 <? 2)%nat with false by (symmetry; apply Nat.ltb_ge; lia).
    destruct b; simpl; lia. }
  revert t. induction k as [|k IH]; intros t.
  - lia.
  - destruct (le_lt_dec 2 t) as [Ht|Ht].
    + specialize (H (S k + 2) t Ht). lia.
    + replace (S k + 2) with (S (k + 2)) by lia. simpl.
      assert (Hk : S k <= steps Scenario.late b (S t) (k + 2)).
      { destruct (le_lt_dec 2 (S t)) as [Ht'|Ht'].
        - specialize (H (k + 2) (S t) Ht'). lia.
        - replace (k + 2) with (S (k + 1)) by lia. simpl.
          assert (H2 : 2 <= S (S t)) by lia.
          specialize (H (k + 1) (S (S t)) H2). lia. }
      lia.
Qed.

Lemma run_write_retry_witness :
  events_of
    (@run (Scenario.world_with Scenario.eager
             [Scenario.broken_child; Scenario.broken_child;
              Scenario.echo_child])
          Markers.Shell 4 "echo hello" init)
  = Some ([retry_event "BrokenPipeError: [Errno 32] Broken pipe" 1;
           output_event ("hello" ++ nl)], Returned)
  /\ events_of
       (@run (Scenario.world_of [Scenario.broken_child; Scenario.broken_child;
                                 Scenario.broken_child; Scenario.broken_child;
                                 Scenario.broken_child])
             Markers.Shell 4 "echo hello" init)
     = Some ([retry_event "BrokenPipeError: [Errno 32] Broken pipe" 1;
              retry_event "BrokenPipeError: [Errno 32] Broken pipe" 2;
              retry_event "BrokenPipeError: [Errno 32] Broken pipe" 3;
              max_retries_event], Returned).
Proof.
  split.
  - destruct (@run_write_retry
                (Scenario.world_with Scenario.eager
                   [Scenario.broken_child; Scenario.broken_child;
                    Scenario.echo_child])
                Markers.Shell "echo hello" _ init _ _
                (broken_setup_with Scenario.eager
                   [Scenario.broken_child; Scenario.echo_child])
                eq_refl) as (_ & H & _).
    destruct (H "BrokenPipeError: [Errno 32] Broken pipe" Scenario.broken_child
                "BrokenPipeError: [Errno 32] Broken pipe" Scenario.echo_child
                eq_refl (conj eq_refl (conj eq_refl eq_refl)) eq_refl eq_refl
                (conj eq_refl (conj eq_refl eq_refl)) eq_refl eq_refl)
      as (_ & _ & _ & Hall).
    destruct (Hall eq_refl eq_refl eager_reads_echo echo_answers_hello)
      as [fuel Hrun].
    assert (E : @run (Scenario.world_with Scenario.eager
                        [Scenario.broken_child; Scenario.broken_child;
                         Scenario.echo_child])
                     Markers.Shell 4 "echo hello" init
                = @run (Scenario.world_with Scenario.eager
                          [Scenario.broken_child; Scenario.broken_child;
                           Scenario.echo_child])
                       Markers.Shell fuel "echo hello" init).
    { rewrite Hrun. vm_compute. reflexivity. }
    rewrite E, Hrun. reflexivity.
  - destruct (@run_write_retry
                (Scenario.world_of [Scenario.broken_child; Scenario.broken_child;
                                    Scenario.broken_child; Scenario.broken_child;
                                    Scenario.broken_child])
                Markers.Shell "echo hello" _ init _ _
                (broken_setup [Scenario.broken_child; Scenario.broken_child;
                               Scenario.broken_child; Scenario.broken_child])
                eq_refl) as (_ & _ & H).
    destruct (H "BrokenPipeError: [Errno 32] Broken pipe" Scenario.broken_child
                "BrokenPipeError: [Errno 32] Broken pipe" Scenario.broken_child
                "BrokenPipeError: [Errno 32] Broken pipe" Scenario.broken_child
                "BrokenPipeError: [Errno 32] Broken pipe" Scenario.broken_child
                eq_refl (conj eq_refl (conj eq_refl eq_refl)) eq_refl
                eq_refl (conj eq_refl (conj eq_refl eq_refl)) eq_refl
                eq_refl (conj eq_refl (conj eq_refl eq_refl)) eq_refl
                eq_refl (conj eq_refl (conj eq_refl eq_refl)) eq_refl
                4 (le_n 4)) as (s' & Hrun & _).
    rewrite Hrun. reflexivity.
Defined.

(** The claim C1 as it stands fails twice.  The write fails on attempts 1
    and 2 and succeeds on attempt 3, the readers get their turns, and the
    call returns with the event of the last line of the answer still in
    the queue: the readers were held up during the first two looks, the
    done-signal was seen at the third, and the three further looks took
    three of the four events.  And when the write fails four times and the
    restart that the fourth failure triggers cannot launch the command,
    the call ends with the exception of the launch, without the event
    [Maximum retries reached...]. *)
Lemma run_write_retry_counterexample :
  (fair (schedule (Scenario.world_with Scenario.late
                     [Scenario.broken_child; Scenario.broken_child;
                      Scenario.chatty_child]))
   /\ events_of
        (@run (Scenario.world_with Scenario.late
                 [Scenario.broken_child; Scenario.broken_child;
                  Scenario.chatty_child])
              Markers.Shell 4 "echo hello" init)
      = Some ([retry_event "BrokenPipeError: [Errno 32] Broken pipe" 1;
               output_event ("a" ++ nl); output_event ("b" ++ nl);
               output_event ("c" ++ nl)], Returned)
   /\ output_queue
        (session_after init
           (@run (Scenario.world_with Scenario.late
                    [Scenario.broken_child; Scenario.broken_child;
                     Scenario.chatty_child])
                 Markers.Shell 4 "echo hello" init))
      = [output_event ("d" ++ nl)])
  /\ events_of
       (@run (Scenario.world_of [Scenario.broken_child; Scenario.broken_child;
                                 Scenario.broken_child; Scenario.broken_child])
             Markers.Shell 4 "echo hello" init)
     = Some ([retry_event "BrokenPipeError: [Errno 32] Broken pipe" 1;
              retry_event "BrokenPipeError: [Errno 32] Broken pipe" 2;
              retry_event "BrokenPipeError: [Errno 32] Broken pipe" 3],
             Raised "FileNotFoundError: [Errno 2]").
Proof.
  split; [split; [exact late_fair | split; vm_compute; reflexivity]|].
  vm_compute. reflexivity.
Qed.

(** ** Two calls in a row *)

Section SetupFacts.
Context (w : world) {L : Language}.

(** The setup of a call on a running session whose snapshot equals
    [os.environ] leaves the session as it is. *)
Lemma run_setup_same_env code code' s p :
  preprocess_code code = Ok code' ->
  process s = Some p ->
  PyDict.eqb (env_vars s) (os_environ w) = true ->
  run_setup w code s = (Ok code', s).
Proof.
  intros Hc Hp He. unfold run_setup, bind, lift, ret.
  rewrite Hc, Hp. unfold PyDict.copy. now rewrite He.
Qed.

(** The snapshot [start_process] takes equals [os.environ] only if
    [PYTHONIOENCODING] is [utf-8] there. *)
Lemma snapshot_differs :
  PyDict.wf (os_environ w) ->
  PyDict.get (os_environ w) "PYTHONIOENCODING" <> Some "utf-8" ->
  PyDict.eqb (child_env w) (os_environ w) = false.
Proof.
  intros Hwf Hne.
  destruct (PyDict.eqb (child_env w) (os_environ w)) eqn:E; [|reflexivity].
  exfalso. apply Hne.
  rewrite <- (PyDictFacts.eqb_get _ _ (PyDictFacts.wf_set _ _ _ Hwf) E).
  apply PyDictFacts.get_set_same.
Qed.

End SetupFacts.

(** C7 fails on the code.  A [Shell] session is started by a first call and
    a second call follows with the same [os.environ]: the snapshot taken
    by [start_process] holds [PYTHONIOENCODING], which [os.environ] does
    not, so the second call finds the two different, calls the
    synchronizer, and a newline is written to stdin before the code. *)
Theorem second_run_syncs :
  events_of TwoCalls.first = Some ([output_event ("hello" ++ nl)], Returned)
  /\ stdin_log (session_after init TwoCalls.first)
     = ["echo hello" ++ nl ++ "echo ##end_of_execution##" ++ nl]
  /\ env_vars (session_after init TwoCalls.first)
     = [("PATH", "/bin"); ("PYTHONIOENCODING", "utf-8")]
  /\ events_of TwoCalls.second = Some ([output_event ("hello" ++ nl)], Returned)
  /\ stdin_log (session_after init TwoCalls.second)
     = ["echo hello" ++ nl ++ "echo ##end_of_execution##" ++ nl;
        nl;
        "echo hello" ++ nl ++ "echo ##end_of_execution##" ++ nl].
Proof. repeat split; vm_compute; reflexivity. Qed.

(** * Further properties of the code *)

(** ** The demultiplexer, line by line *)

Module PyStrMore.
Import PyStr.
















End PyStrMore.

Section DemultiplexerMore.
Context {L : Language}.







End DemultiplexerMore.





(** ** The call, case by case *)

Section RunCases.
Context (w : world) {L : Language}.










End RunCases.









(** ** The drain loop, further *)

Section DrainMore.
Context (w : world) {L : Language}.










End DrainMore.



(** ** What the drain loop yields *)



Section DrainYields.
Context (w : world).



End DrainYields.


